(** * bowtie/_report.py: the report aggregate and its queries

    A shallow embedding of [src/bowtie/_report.py]: the [Count] and [Summary]
    aggregates, [RunMetadata], the single-pass fold [Report.from_input], the
    queries [total_tests], [implementations], [cases_with_results] and the
    badge generator [generate_badges].

    Python values are modelled as follows.
    - [int] is [Z]; a [str] is a [string].
    - An [rpds.HashTrieMap] is a [gmap]: it is persistent, so every "update"
      returns a new map, exactly like [<[k:=v]>].
    - A raised exception is the left injection of [except]; the exception
      classes are the constructors of [exn].
    - A decoded JSON document is a [json]; a record of the stream (a Python
      [dict] used through [in], [[]] and keyword unpacking only) is a
      [gmap string json].
    - A [float] is a binary64 [spec_float] (the Standard Library's executable
      specification of IEEE 754 arithmetic). *)

From Stdlib Require Import ZArith Lia Ascii String.
From Stdlib Require Import Floats.SpecFloat.
From stdpp Require Import gmap strings list fin_maps sorting pretty.

Local Open Scope Z_scope.

(** ** Exceptions *)

(** The two messages [_InvalidBowtieReport] is raised with:
    [f"Duplicate case: {seq}"] and [f"Duplicate result for case ID {seq}!"].
    The spec calls them the error kinds DuplicateCase and DuplicateResult. *)
Inductive invalid_report :=
| DuplicateCase (seq : Z)
| DuplicateResult (seq : Z).

Inductive exn :=
| EmptyReport
| InvalidBowtieReport (why : invalid_report)
| KeyError
| TypeError
| ValueError
| AttributeError
| IndexError
| ZeroDivisionError
| OverflowError.

Definition except (A : Type) : Type := (exn + A)%type.

Definition ret {A} (a : A) : except A := inr a.
Definition raise {A} (e : exn) : except A := inl e.
Definition bind {A B} (m : except A) (k : A → except B) : except B :=
  match m with
  | inl e => inl e
  | inr a => k a
  end.

Notation "'let*' x ':=' m 'in' k" := (bind m (λ x, k))
  (at level 10, x pattern, m at level 100, k at level 200).

(** ** Decoded JSON *)

(** [JObject] keeps the members in document order, as a Python [dict] does;
    [json.loads] yields pairwise distinct keys. *)
#[warnings="-register-all"]
Inductive json :=
| JNull
| JBool (b : bool)
| JInt (n : Z)
| JFloat (x : spec_float)
| JStr (s : string)
| JArray (l : list json)
| JObject (o : list (string * json)).

(** One record of the stream. *)
Abbreviation record := (gmap string json).

Fixpoint assoc (k : string) (o : list (string * json)) : option json :=
  match o with
  | [] => None
  | (k', v) :: o' => if decide (k = k') then Some v else assoc k o'
  end.

(** [v[k]] for a string key [k]. *)
Definition getitem (v : json) (k : string) : except json :=
  match v with
  | JObject o =>
      match assoc k o with
      | Some x => ret x
      | None => raise KeyError
      end
  | _ => raise TypeError
  end.

(** [iter(v)]: the elements of a list, the characters of a string, the keys
    of a dict. *)
Fixpoint chars (s : string) : list json :=
  match s with
  | EmptyString => []
  | String c s' => JStr (String c EmptyString) :: chars s'
  end.

Definition iterate (v : json) : except (list json) :=
  match v with
  | JArray l => ret l
  | JStr s => ret (chars s)
  | JObject o => ret (JStr <$> o.*1)
  | _ => raise TypeError
  end.

(** ** bowtie._commands (not part of this file's source) *)

(** Modelled from the spec: [Seq], imported from [bowtie._commands], is the
    "totally ordered identifier, unique per case within one run"; the class
    pattern [Seq(seq)] of [from_input] accepts the JSON integers (and the
    booleans, which are integers in Python). *)
Abbreviation Seq := Z (only parsing).

Definition as_Seq (v : json) : option Seq :=
  match v with
  | JInt n => Some n
  | JBool b => Some (if b then 1 else 0)
  | _ => None
  end.

(** Modelled from the spec: [Test] is "an input instance + expected
    valid/invalid verdict", [TestCase] "a schema document, a human
    description, an ordered sequence of Tests". *)
Record Test := mkTest {
  instance : json;
  valid : bool;
}.

Record TestCase := mkTestCase {
  schema : json;
  description : string;
  tests : list Test;
}.

(** Modelled from the spec: a per-test outcome ([AnyTestResult]) either
    passes or is counted as exactly one of failed, errored, skipped. *)
Inductive AnyTestResult :=
| TestPassed
| TestFailed
| TestErrored
| TestSkipped.

(** Modelled from the spec: the tagged variant [AnyCaseResult] is
    [CaseResult{implementation, seq, ordered per-test outcomes}],
    [CaseErrored{implementation, seq, context, caught-flag}] or
    [CaseSkipped{implementation, seq, reason}]. *)
Record CaseResult := mkCaseResult {
  result_implementation : string;
  result_seq : Seq;
  results : list AnyTestResult;
}.

Record CaseErrored := mkCaseErrored {
  errored_implementation : string;
  errored_seq : Seq;
  context : json;
  caught : bool;
}.

Record CaseSkipped := mkCaseSkipped {
  skipped_implementation : string;
  skipped_seq : Seq;
  reason : json;
}.

Inductive AnyCaseResult :=
| Result (r : CaseResult)
| Errored (e : CaseErrored)
| Skipped (s : CaseSkipped).

Definition implementation (result : AnyCaseResult) : string :=
  match result with
  | Result r => result_implementation r
  | Errored e => errored_implementation e
  | Skipped s => skipped_implementation s
  end.

Definition seq (result : AnyCaseResult) : Seq :=
  match result with
  | Result r => result_seq r
  | Errored e => errored_seq e
  | Skipped s => skipped_seq s
  end.

(** ** Count *)

Module Count.

Record t := mk {
  failed_tests : Z;
  errored_tests : Z;
  skipped_tests : Z;
}.

(** [Count()]: every field defaults to 0. *)
Definition new : t := mk 0 0 0.

(** "Any test which was not a successful result, including skips." *)
Definition unsuccessful_tests (self : t) : Z :=
  errored_tests self + failed_tests self + skipped_tests self.

End Count.

(** Modelled from the spec: [be_counted], a method of the result classes of
    [bowtie._commands]. "Each test-level outcome in the ordered per-test
    outcomes increments exactly one of {failed, errored, skipped} in the
    owning implementation's Count; passing outcomes increment nothing.
    CaseErrored increments errored by one. CaseSkipped increments skipped by
    one." *)
Definition count_test (count : Count.t) (outcome : AnyTestResult) : Count.t :=
  let '(Count.mk failed errored skipped) := count in
  match outcome with
  | TestPassed => count
  | TestFailed => Count.mk (failed + 1) errored skipped
  | TestErrored => Count.mk failed (errored + 1) skipped
  | TestSkipped => Count.mk failed errored (skipped + 1)
  end.

Definition be_counted (result : AnyCaseResult) (count : Count.t) : Count.t :=
  let '(Count.mk failed errored skipped) := count in
  match result with
  | Result r => fold_left count_test (results r) count
  | Errored _ => Count.mk failed (errored + 1) skipped
  | Skipped _ => Count.mk failed errored (skipped + 1)
  end.

(** ** Summary *)

Module Summary.

Record t := mk {
  _results : gmap Seq (gmap string AnyCaseResult);
  by_implementation : gmap string Count.t;
}.

(** [Summary()]: both maps default to the empty [HashTrieMap]. *)
Definition new : t := mk ∅ ∅.

(** [__getitem__]: [self._results[seq]]. *)
Definition getitem (self : t) (seq : Seq) : except (gmap string AnyCaseResult) :=
  match _results self !! seq with
  | Some case_results => ret case_results
  | None => raise KeyError
  end.

Definition with_result (self : t) (result : AnyCaseResult) : except t :=
  let seq := seq result in
  let results := default ∅ (_results self !! seq) in
  let implementation := implementation result in
  if decide (is_Some (results !! implementation)) then
    raise (InvalidBowtieReport (DuplicateResult seq))
  else
    let count := default Count.new (by_implementation self !! implementation) in
    ret (mk (<[seq := <[implementation := result]> results]> (_results self))
            (<[implementation := be_counted result count]> (by_implementation self))).

(** The result stored for [(seq, implementation)], if any. *)
Definition result_of (self : t) (seq : Seq) (implementation : string)
  : option AnyCaseResult :=
  default ∅ (_results self !! seq) !! implementation.

(** Folding a list of results into a summary, one [with_result] after the
    other, as the loop of [from_input] does; the first exception ends it. *)
Fixpoint with_results (self : t) (l : list AnyCaseResult) : except t :=
  match l with
  | [] => ret self
  | result :: l' => let* self' := with_result self result in with_results self' l'
  end.

End Summary.

(** ** Small pieces of the Python runtime *)

(** Sequential evaluation of [f] over a list; the first exception ends it. *)
Fixpoint traverse {A B} (f : A → except B) (l : list A) : except (list B) :=
  match l with
  | [] => ret []
  | x :: l' => let* y := f x in let* ys := traverse f l' in ret (y :: ys)
  end.

(** [enumerate(l)], counting from [i]. *)
Fixpoint enumerate_from {A} (i : nat) (l : list A) : list (nat * A) :=
  match l with
  | [] => []
  | x :: l' => (i, x) :: enumerate_from (S i) l'
  end.

Definition enumerate {A} (l : list A) : list (nat * A) := enumerate_from 0 l.

(** A generator: the values it yields and the exception that ends the
    iteration, if one does. *)
Fixpoint generator {A B} (f : A → except B) (l : list A) : list B * option exn :=
  match l with
  | [] => ([], None)
  | x :: l' =>
      match f x with
      | inl e => ([], Some e)
      | inr y => let '(ys, e) := generator f l' in (y :: ys, e)
      end
  end.

(** The members of a [dict] other than [k]. *)
Definition without (k : string) (o : list (string * json)) : list (string * json) :=
  filter (λ kv, kv.1 ≠ k) o.

(** [s.removeprefix(p)]. *)
Fixpoint strip_prefix (p s : string) : option string :=
  match p, s with
  | EmptyString, _ => Some s
  | String a p', String b s' => if decide (a = b) then strip_prefix p' s' else None
  | String _ _, EmptyString => None
  end.

Definition removeprefix (p s : string) : string := default s (strip_prefix p s).

(** [s.replace(old, new)] for single characters. *)
Fixpoint replace (old new : ascii) (s : string) : string :=
  match s with
  | EmptyString => EmptyString
  | String c s' => String (if decide (c = old) then new else c) (replace old new s')
  end.

(** [sep.join(l)]. *)
Fixpoint join (sep : string) (l : list string) : string :=
  match l with
  | [] => EmptyString
  | [x] => x
  | x :: l' => x +:+ sep +:+ join sep l'
  end.

(** *** Floating point: binary64 *)

Definition prec : Z := 53.
Definition emax : Z := 1024.

(** An integer as the binary float of the same value (significand [n],
    exponent 0). *)
Definition exact (n : Z) : spec_float :=
  match n with
  | Z0 => S754_zero false
  | Zpos p => S754_finite false p 0
  | Zneg p => S754_finite true p 0
  end.

(** [float(n)]. *)
Definition float (n : Z) : spec_float := binary_normalize prec emax n 0 false.

(** [a / b] on two [int]: the quotient rounded once to the nearest float. *)
Definition truediv (a b : Z) : except spec_float :=
  if decide (b = 0) then raise ZeroDivisionError
  else
    match SFdiv prec emax (exact a) (exact b) with
    | S754_infinity _ | S754_nan => raise OverflowError
    | q => ret q
    end.

(** [int(x)]: truncation towards zero. *)
Definition int (x : spec_float) : except Z :=
  match x with
  | S754_zero _ => ret 0
  | S754_finite s m e =>
      let magnitude := Z.shiftl (Zpos m) e in
      ret (if s then - magnitude else magnitude)
  | S754_infinity _ => raise OverflowError
  | S754_nan => raise ValueError
  end.

(** *** Formatting *)

Definition hex_digit (d : Z) : ascii :=
  default "0"%char (list_ascii_of_string "0123456789abcdef" !! Z.to_nat d).

Fixpoint hex_go (fuel : nat) (n : Z) (acc : string) : string :=
  match fuel with
  | O => acc
  | S fuel' =>
      if decide (n = 0) then acc
      else hex_go fuel' (n / 16) (String (hex_digit (n mod 16)) acc)
  end.

(** [format(n, "x")] for [0 ≤ n]. *)
Definition hex (n : Z) : string :=
  if decide (n = 0) then "0" else hex_go (Z.to_nat (Z.log2 n + 1)) n "".

(** [f"{n:02x}"]: lower-case hexadecimal, zero-padded to width 2, the sign
    counting towards the width. *)
Definition format_02x (n : Z) : string :=
  if decide (n < 0) then "-" +:+ hex (- n)
  else if decide (String.length (hex n) < 2)%nat then "0" +:+ hex n
  else hex n.

(** ** What the module takes from its environment *)

(** [url.URL]: a parsed URL; two are equal when their serialisations are. *)
Record URL := mkURL { href : string }.

Global Instance URL_eq_dec : EqDecision URL.
Proof. solve_decision. Defined.

Global Instance URL_countable : Countable URL.
Proof. by apply (inj_countable' href mkURL); intros []. Defined.

(** The library calls of [_report.py], and the decoders of
    [bowtie._commands] that [from_input] hands its records to. Nothing is
    assumed of them; each may raise. *)
Class Externals := {
  (** [datetime.datetime] *)
  datetime : Type;
  (** [URL.parse(s)] *)
  URL_parse : string → except URL;
  (** [datetime.fromisoformat(v)] *)
  fromisoformat : json → except datetime;
  (** [datetime.now(timezone.utc)], read when a [RunMetadata] is built
      without [started] *)
  now : datetime;
  (** [importlib.metadata.version("bowtie-json-schema")] *)
  installed_version : string;
  (** [str(v)], as an f-string renders a value *)
  str : json → string;
  (** [TestCase.from_dict(dialect=dialect, **members)] *)
  TestCase_from_dict : URL → list (string * json) → except TestCase;
  (** [CaseErrored] applied to the keywords [data] *)
  CaseErrored_new : record → except CaseErrored;
  (** [CaseSkipped] applied to the keywords [skip] *)
  CaseSkipped_new : record → except CaseSkipped;
  (** [CaseResult.from_dict(data)] *)
  CaseResult_from_dict : record → except CaseResult;
}.

(** The entries of [_DIALECT_URI_TO_SHORTNAME], in the order of the source;
    each key is the literal as [URL.parse] returns it. *)
Definition known_dialects : list (URL * string) := [
  (mkURL "https://json-schema.org/draft/2020-12/schema", "Draft 2020-12");
  (mkURL "https://json-schema.org/draft/2019-09/schema", "Draft 2019-09");
  (mkURL "http://json-schema.org/draft-07/schema#", "Draft 7");
  (mkURL "http://json-schema.org/draft-06/schema#", "Draft 6");
  (mkURL "http://json-schema.org/draft-04/schema#", "Draft 4");
  (mkURL "http://json-schema.org/draft-03/schema#", "Draft 3")
].

Definition _DIALECT_URI_TO_SHORTNAME : gmap URL string := list_to_map known_dialects.

(** [_DIALECT_URI_TO_SHORTNAME[dialect]]. *)
Definition shortname_getitem (dialect : URL) : except string :=
  match _DIALECT_URI_TO_SHORTNAME !! dialect with
  | Some label => ret label
  | None => raise KeyError
  end.

(** What the writing side of the module and [from_serialized] take from
    their environment besides. *)
Class Serializers `{Externals} := {
  (** [d.isoformat()] *)
  isoformat : datetime → string;
  (** [json.loads(line)] for a line that holds an object; a line that is not
      JSON raises [JSONDecodeError], a [ValueError] *)
  loads : string → except record;
  (** [case.serializable()] *)
  TestCase_serializable : TestCase → json;
}.

(** [o[k] = v] on a [dict]: a key that is there keeps its place, a new one
    goes last. *)
Fixpoint setitem (k : string) (v : json) (o : list (string * json))
  : list (string * json) :=
  match o with
  | [] => [(k, v)]
  | (k', v') :: o' =>
      if decide (k = k') then (k, v) :: o' else (k', v') :: setitem k v o'
  end.

(** Modelled from the spec: an [Implementation] of [bowtie._core] is "an
    Implementation descriptor exposing {name, image, language, metadata:
    {dialects: [URI], ...}}"; [from_implementations] reads its [name] and its
    [metadata], which may be [None]. *)
Module Implementation.

Record t := mk {
  name : string;
  metadata : option (list (string * json));
}.

End Implementation.

(** ** RunMetadata *)

Module RunMetadata.

Record t (datetime : Type) := mk {
  dialect : URL;
  _implementations : json;
  bowtie_version : json;
  metadata : json;
  started : datetime;
}.

Arguments mk {datetime}.
Arguments dialect {datetime}.
Arguments _implementations {datetime}.
Arguments bowtie_version {datetime}.
Arguments metadata {datetime}.
Arguments started {datetime}.

Section methods.
Context `{Externals}.

(** [from_dict] applied to the keywords [header]: [dialect] is a required
    argument, [started] is popped from the other keywords (and put back,
    parsed, unless it is [None]), and what is left goes to the attrs
    constructor, which knows [implementations] (required), [bowtie_version],
    [metadata] and [started]. *)
Definition from_dict (header : record) : except (t datetime) :=
  match header !! "dialect" with
  | None => raise TypeError
  | Some dialect =>
      let kwargs := delete "dialect" header in
      match kwargs !! "started" with
      | None => raise KeyError
      | Some started =>
          let kwargs := delete "started" kwargs in
          let* started :=
            match started with
            | JNull => ret None
            | _ => let* parsed := fromisoformat started in ret (Some parsed)
            end in
          let* dialect :=
            match dialect with
            | JStr s => URL_parse s
            | _ => raise TypeError
            end in
          if decide (dom kwargs ⊆ ({["implementations"; "bowtie_version"; "metadata"]} : gset string))
          then
            match kwargs !! "implementations" with
            | None => raise TypeError
            | Some implementations =>
                ret (mk dialect implementations
                       (default (JStr installed_version) (kwargs !! "bowtie_version"))
                       (default (JObject []) (kwargs !! "metadata"))
                       (default now started))
            end
          else raise TypeError
      end
  end.

(** What the property [dialect_shortname] returns: a label of the table (a
    [str]), or the dialect itself (a [URL]). *)
Inductive shortname :=
| Label (label : string)
| Raw (dialect : URL).

(** [_DIALECT_URI_TO_SHORTNAME.get(self.dialect, self.dialect)]. *)
Definition dialect_shortname (self : t datetime) : shortname :=
  match _DIALECT_URI_TO_SHORTNAME !! dialect self with
  | Some label => Label label
  | None => Raw (dialect self)
  end.

(** [str(v)] of what [dialect_shortname] returned. *)
Definition shortname_str (v : shortname) : string :=
  match v with
  | Label label => label
  | Raw dialect => href dialect
  end.

(** [self._implementations.values()]. *)
Definition implementations (self : t datetime) : except (list json) :=
  match _implementations self with
  | JObject o => ret o.*2
  | _ => raise AttributeError
  end.

End methods.

Section writing.
Context `{Serializers}.

(** [dict(implementation.metadata or {}, image=implementation.name)]. *)
Definition described (implementation : Implementation.t) : json :=
  JObject (setitem "image" (JStr (Implementation.name implementation))
             (default [] (Implementation.metadata implementation))).

(** [from_implementations]: the dict comprehension keyed by the names, a
    later implementation of the same name replacing the entry of an earlier
    one. The other keywords are those of the attrs constructor: [dialect],
    and [bowtie_version], [metadata] and [started] when they are given. *)
Definition from_implementations (implementations : list Implementation.t)
    (dialect : URL) (bowtie_version metadata : option json)
    (started : option datetime) : t datetime :=
  mk dialect
    (JObject
       (foldl
          (λ o implementation,
             setitem (Implementation.name implementation)
               (described implementation) o)
          [] implementations))
    (default (JStr installed_version) bowtie_version)
    (default (JObject []) metadata)
    (default now started).

(** [serializable]: the fields by their names without the leading
    underscore, [dialect] as its string and [started] in ISO format. *)
Definition serializable (self : t datetime) : record :=
  {[ "dialect" := JStr (href (dialect self));
     "implementations" := _implementations self;
     "bowtie_version" := bowtie_version self;
     "metadata" := metadata self;
     "started" := JStr (isoformat (started self)) ]}.

End writing.
End RunMetadata.

(** ** Report *)

(** What [Path.mkdir] and [Path.write_text] leave behind; a path is given by
    its components below [target_dir], and a written file by the object that
    [json.dumps] serialises into it. *)
Inductive fs_op :=
| mkdir (path : list string)
| write_text (path : list string) (content : json).

Module Report.

Record t (datetime : Type) := mk {
  _cases : gmap Seq TestCase;
  metadata : RunMetadata.t datetime;
  summary : Summary.t;
  did_fail_fast : json;
}.

Arguments mk {datetime}.
Arguments _cases {datetime}.
Arguments metadata {datetime}.
Arguments summary {datetime}.
Arguments did_fail_fast {datetime}.

Section methods.
Context `{Externals}.

(** *** Assembly *)

(** One turn of the loop of [from_input]: the new [cases] and [summary], or
    the [break] with the value bound to [did_fail_fast]. *)
Inductive turn :=
| Next (cases : gmap Seq TestCase) (summary : Summary.t)
| Break (did_fail_fast : json).

(** The [match data:] statement. The patterns are tried in the order of the
    source: a record with ["seq"] (an integer) and ["case"]; a record with
    ["caught"]; a record whose ["skipped"] is [True]; a record with
    ["did_fail_fast"]; any other record. *)
Definition dispatch (metadata : RunMetadata.t datetime)
    (cases : gmap Seq TestCase) (summary : Summary.t) (data : record)
  : except turn :=
  match data !! "seq" ≫= as_Seq, data !! "case" with
  | Some seq, Some case =>
      if decide (is_Some (cases !! seq)) then
        raise (InvalidBowtieReport (DuplicateCase seq))
      else
        (* case["dialect"] = metadata.dialect; TestCase.from_dict of it *)
        match case with
        | JObject members =>
            let* case :=
              TestCase_from_dict (RunMetadata.dialect metadata)
                (without "dialect" members) in
            ret (Next (<[seq := case]> cases) summary)
        | _ => raise TypeError
        end
  | _, _ =>
      if decide (is_Some (data !! "caught")) then
        let* error := CaseErrored_new data in
        let* summary := Summary.with_result summary (Errored error) in
        ret (Next cases summary)
      else
        match data !! "skipped" with
        | Some (JBool true) =>
            let* skip := CaseSkipped_new (delete "skipped" data) in
            let* summary := Summary.with_result summary (Skipped skip) in
            ret (Next cases summary)
        | _ =>
            match data !! "did_fail_fast" with
            | Some did_fail_fast => ret (Break did_fail_fast)
            | None =>
                let* result := CaseResult_from_dict data in
                let* summary := Summary.with_result summary (Result result) in
                ret (Next cases summary)
            end
        end
  end.

(** The [for data in iterator] loop, from the state [cases], [summary] and
    [did_fail_fast = False]. Besides the three variables it returns the
    records the iterator still holds when the loop is left. *)
Fixpoint consume (metadata : RunMetadata.t datetime)
    (cases : gmap Seq TestCase) (summary : Summary.t) (iterator : list record)
  : except (gmap Seq TestCase * Summary.t * json * list record) :=
  match iterator with
  | [] => ret (cases, summary, JBool false, [])
  | data :: iterator =>
      let* turn := dispatch metadata cases summary data in
      match turn with
      | Next cases summary => consume metadata cases summary iterator
      | Break did_fail_fast => ret (cases, summary, did_fail_fast, iterator)
      end
  end.

(** The state of the loop once the records [consumed] have been taken from
    the iterator, when none of them raised or left the loop. *)
Fixpoint after (metadata : RunMetadata.t datetime)
    (cases : gmap Seq TestCase) (summary : Summary.t) (consumed : list record)
  : option (gmap Seq TestCase * Summary.t) :=
  match consumed with
  | [] => Some (cases, summary)
  | data :: consumed =>
      match dispatch metadata cases summary data with
      | inr (Next cases summary) => after metadata cases summary consumed
      | _ => None
      end
  end.

Definition from_input (input : list record) : except (t datetime) :=
  match input with
  | [] => raise EmptyReport
  | header :: iterator =>
      let* metadata := RunMetadata.from_dict header in
      let* (cases, summary, did_fail_fast, _) :=
        consume metadata ∅ Summary.new iterator in
      ret (mk cases metadata summary did_fail_fast)
  end.

(** *** Queries *)

Definition dialect (self : t datetime) : URL := RunMetadata.dialect (metadata self).

Definition total_tests (self : t datetime) : Z :=
  map_fold (λ _ case total, Z.of_nat (length (tests case)) + total) 0 (_cases self).

(** [[each["image"] for each in self.metadata.implementations]]. *)
Definition implementations (self : t datetime) : except (list json) :=
  let* descriptors := RunMetadata.implementations (metadata self) in
  traverse (λ each, getitem each "image") descriptors.

(** [result.results[i]]. Modelled from the spec: of the result classes of
    [bowtie._commands] only [CaseResult] carries per-test outcomes, so the
    attribute is missing on the other two; [i] comes from [enumerate] and is
    never negative. *)
Definition results_getitem (result : AnyCaseResult) (i : nat) : except AnyTestResult :=
  match result with
  | Result r =>
      match results r !! i with
      | Some outcome => ret outcome
      | None => raise IndexError
      end
  | _ => raise AttributeError
  end.

(** The dict comprehension
    [{each: case_results[each].results[i] for each in ... if each in case_results}],
    filling [view]. A list or a dict is not hashable, so asking whether it
    is a key raises; any other value than a string is not a key. *)
Fixpoint by_implementation (case_results : gmap string AnyCaseResult) (i : nat)
    (implementations : list json) (view : gmap string AnyTestResult)
  : except (gmap string AnyTestResult) :=
  match implementations with
  | [] => ret view
  | each :: implementations =>
      match each with
      | JStr name =>
          match case_results !! name with
          | Some result =>
              let* outcome := results_getitem result i in
              by_implementation case_results i implementations (<[name := outcome]> view)
          | None => by_implementation case_results i implementations view
          end
      | JArray _ | JObject _ => raise TypeError
      | _ => by_implementation case_results i implementations view
      end
  end.

(** [sorted(self._cases.items())]: the keys are distinct, so the pairs are
    ordered by their [Seq]. *)
Definition seq_le (x y : Seq * TestCase) : Prop := x.1 ≤ y.1.

Global Instance seq_le_dec : RelDecision seq_le.
Proof. intros x y. unfold seq_le. apply _. Defined.

Definition sorted (items : list (Seq * TestCase)) : list (Seq * TestCase) :=
  merge_sort seq_le items.

(** The body of the loop of [cases_with_results]: what is yielded for one
    case. *)
Definition case_with_results (self : t datetime) (item : Seq * TestCase)
  : except (TestCase * list (Test * gmap string AnyTestResult)) :=
  let '(seq, case) := item in
  let* case_results := Summary.getitem (summary self) seq in
  let* test_results :=
    traverse
      (λ '(i, test),
        let* implementations := implementations self in
        let* view := by_implementation case_results i implementations ∅ in
        ret (test, view))
      (enumerate (tests case)) in
  ret (case, test_results).

Definition cases_with_results (self : t datetime)
  : list (TestCase * list (Test * gmap string AnyTestResult)) * option exn :=
  generator (case_with_results self) (sorted (map_to_list (_cases self))).

(** *** Badges *)

(** [total - counts.failed_tests - counts.errored_tests - counts.skipped_tests]. *)
Definition passed_tests (total : Z) (counts : Count.t) : Z :=
  total - Count.failed_tests counts - Count.errored_tests counts
    - Count.skipped_tests counts.

(** [pct = (passed / total) * 100]. *)
Definition percentage (passed total : Z) : except spec_float :=
  let* ratio := truediv passed total in
  ret (SFmul prec emax ratio (float 100)).

(** [r, g, b = 100 - int(pct), int(pct), 0]. *)
Definition color_bytes (pct : spec_float) : except (Z * Z * Z) :=
  let* shown := int pct in
  ret (100 - shown, shown, 0).

(** [f"{r:02x}{g:02x}{b:02x}"]. *)
Definition color (rgb : Z * Z * Z) : string :=
  let '(r, g, b) := rgb in format_02x r +:+ format_02x g +:+ format_02x b.

(** [[URL.parse(each) for each in impl["dialects"]]]. *)
Definition dialect_versions (impl : json) : except (list URL) :=
  let* dialects := getitem impl "dialects" in
  let* dialects := iterate dialects in
  traverse
    (λ each, match each with JStr s => URL_parse s | _ => raise TypeError end)
    dialects.

(** [self.summary.by_implementation[image]]. *)
Definition counts_getitem (self : t datetime) (image : json) : except Count.t :=
  match image with
  | JStr image =>
      match Summary.by_implementation (summary self) !! image with
      | Some counts => ret counts
      | None => raise KeyError
      end
  | JArray _ | JObject _ => raise TypeError
  | _ => raise KeyError
  end.

(** The body of the loop of [generate_badges] for one implementation: the
    files it writes, none when the implementation does not support the
    dialect ([continue]). Every exception of the body is raised before its
    first write. *)
Definition badges_of (self : t datetime) (label : string) (total : Z) (impl : json)
  : except (list fs_op) :=
  let* dialect_versions := dialect_versions impl in
  if decide (dialect self ∉ dialect_versions) then ret []
  else
    let* shortnames := traverse shortname_getitem (reverse dialect_versions) in
    let supported_drafts := join ", " (removeprefix "Draft " <$> shortnames) in
    let* name := getitem impl "name" in
    let* lang := getitem impl "language" in
    let* image := getitem impl "image" in
    let* counts := counts_getitem self image in
    let passed := passed_tests total counts in
    let* pct := percentage passed total in
    let* rgb := color_bytes pct in
    let* shown := int pct in
    let badge_per_draft :=
      JObject [
        ("schemaVersion", JInt 1);
        ("label", JStr label);
        ("message", JStr (pretty shown +:+ "% Passing"));
        ("color", JStr (color rgb))
      ] in
    let directory := str lang +:+ "-" +:+ str name in
    let comp_dir := [directory; "compliance"] in
    let badge_path_per_draft := comp_dir ++ [replace " " "_" label +:+ ".json"] in
    let badge_supp_draft :=
      JObject [
        ("schemaVersion", JInt 1);
        ("label", JStr "JSON Schema Versions");
        ("message", JStr supported_drafts);
        ("color", JStr "lightgreen")
      ] in
    let badge_path_supp_drafts := [directory; "supported_versions.json"] in
    ret [ mkdir comp_dir;
          write_text badge_path_per_draft badge_per_draft;
          write_text badge_path_supp_drafts badge_supp_draft ].

(** The loop over the implementations: what has been written, and the
    exception that ended the loop, if one did. *)
Fixpoint write_badges (self : t datetime) (label : string) (total : Z)
    (implementations : list json) : list fs_op * option exn :=
  match implementations with
  | [] => ([], None)
  | impl :: implementations =>
      match badges_of self label total impl with
      | inl e => ([], Some e)
      | inr written =>
          let '(more, e) := write_badges self label total implementations in
          (written ++ more, e)
      end
  end.

Definition generate_badges (self : t datetime) : list fs_op * option exn :=
  match shortname_getitem (dialect self) with
  | inl e => ([], Some e)
  | inr label =>
      let total := total_tests self in
      match RunMetadata.implementations (metadata self) with
      | inl e => ([], Some e)
      | inr implementations => write_badges self label total implementations
      end
  end.

(** [Report.empty(dialect)]: 'the' empty report. Its metadata is built by
    the attrs constructor with no implementations and the defaults for the
    other fields. *)
Definition empty (dialect : URL) : t datetime :=
  mk ∅
    (RunMetadata.mk dialect (JObject []) (JStr installed_version) (JObject []) now)
    Summary.new (JBool false).

(** [not self._cases]. *)
Definition is_empty (self : t datetime) : bool := bool_decide (_cases self = ∅).

End methods.

Section reading.
Context `{Serializers}.

(** The loop of [from_input] over an iterator whose [next] may itself
    raise, as the generator expression of [from_serialized] does: a line is
    decoded when the loop asks for it, not before. *)
Fixpoint consume_lazily (metadata : RunMetadata.t datetime)
    (cases : gmap Seq TestCase) (summary : Summary.t)
    (iterator : list (except record))
  : except (gmap Seq TestCase * Summary.t * json) :=
  match iterator with
  | [] => ret (cases, summary, JBool false)
  | next :: iterator =>
      let* data := next in
      let* turn := dispatch metadata cases summary data in
      match turn with
      | Next cases summary => consume_lazily metadata cases summary iterator
      | Break did_fail_fast => ret (cases, summary, did_fail_fast)
      end
  end.

(** [from_input] applied to such an iterator. *)
Definition from_iterator (input : list (except record)) : except (t datetime) :=
  match input with
  | [] => raise EmptyReport
  | next :: iterator =>
      let* header := next in
      let* metadata := RunMetadata.from_dict header in
      let* (cases, summary, did_fail_fast) :=
        consume_lazily metadata ∅ Summary.new iterator in
      ret (mk cases metadata summary did_fail_fast)
  end.

(** [cls.from_input(json.loads(line) for line in serialized)]. *)
Definition from_serialized (serialized : list string) : except (t datetime) :=
  from_iterator (loads <$> serialized).

End reading.
End Report.

(** ** Reporter *)

(** A reporter is given by what its two collaborators have received: the
    keyword records handed to the sink [_write], and the entries handed to
    the logger [_log]. *)
Module Reporter.

Inductive level :=
| info
| error.

Record entry := log {
  entry_level : level;
  event : string;
  fields : list (string * json);
}.

Record t := mk {
  written : list record;
  logged : list entry;
}.

Definition new : t := mk [] [].

Definition _write (result : record) (self : t) : t :=
  mk (written self ++ [result]) (logged self).

Definition _log (e : entry) (self : t) : t :=
  mk (written self) (logged self ++ [e]).

Section methods.
Context `{Serializers}.

Definition ready (run_metadata : RunMetadata.t datetime) (self : t) : t :=
  _write (RunMetadata.serializable run_metadata) self.

Definition finished (count : Z) (did_fail_fast : bool) (self : t) : t :=
  let self :=
    if decide (count = 0) then _log (log error "No test cases ran." []) self
    else _log (log info "Finished" [("count", JInt count)]) self in
  _write {[ "did_fail_fast" := JBool did_fail_fast ]} self.

(** [case_started], which hands the record of the case to the sink through
    [CaseReporter.case_started]. *)
Definition case_started (seq : Seq) (case : TestCase) (self : t) : t :=
  _write {[ "case" := TestCase_serializable case; "seq" := JInt seq ]} self.

End methods.
End Reporter.

(** ** A sample environment

    The theorems below hold for every [Externals]; the examples run in this
    one. Its URL parser accepts every string as it is, a [datetime] is its
    ISO text, and its decoders read the records bowtie writes:
    [{"implementation", "seq", "results", "expected"}] for a result,
    [{"implementation", "seq", "context", "caught"}] for an errored case and
    [{"implementation", "seq", "message", "skipped"}] for a skipped one. *)
Module Sample.

Definition required (data : record) (k : string) : except json :=
  match data !! k with
  | Some v => ret v
  | None => raise TypeError
  end.

Definition as_str (v : json) : except string :=
  match v with
  | JStr s => ret s
  | _ => raise TypeError
  end.

Definition as_int (v : json) : except Z :=
  match as_Seq v with
  | Some n => ret n
  | None => raise TypeError
  end.

Definition test_of (v : json) : except Test :=
  let* instance := getitem v "instance" in
  let* valid := getitem v "valid" in
  match valid with
  | JBool b => ret (mkTest instance b)
  | _ => raise TypeError
  end.

Definition decode_case (dialect : URL) (members : list (string * json))
  : except TestCase :=
  let* description := getitem (JObject members) "description" in
  let* description := as_str description in
  let* schema := getitem (JObject members) "schema" in
  let* tests := getitem (JObject members) "tests" in
  let* tests := iterate tests in
  let* tests := traverse test_of tests in
  ret (mkTestCase schema description tests).

(** One outcome, read against the expected verdict. *)
Definition outcome_of (got expected : json) : except AnyTestResult :=
  match got with
  | JObject o =>
      match assoc "skipped" o, assoc "errored" o, assoc "valid" o with
      | Some (JBool true), _, _ => ret TestSkipped
      | _, Some (JBool true), _ => ret TestErrored
      | _, _, Some (JBool b) =>
          match expected with
          | JBool b' => ret (if decide (b = b') then TestPassed else TestFailed)
          | _ => ret TestPassed
          end
      | _, _, _ => raise TypeError
      end
  | _ => raise TypeError
  end.

Fixpoint outcomes_of (got expected : list json) : except (list AnyTestResult) :=
  match got, expected with
  | g :: got, e :: expected =>
      let* outcome := outcome_of g e in
      let* outcomes := outcomes_of got expected in
      ret (outcome :: outcomes)
  | _, _ => ret []
  end.

Definition decode_result (data : record) : except CaseResult :=
  let* implementation := required data "implementation" in
  let* implementation := as_str implementation in
  let* seq := required data "seq" in
  let* seq := as_int seq in
  let* got := required data "results" in
  let* got := iterate got in
  let* expected := required data "expected" in
  let* expected := iterate expected in
  let* outcomes := outcomes_of got expected in
  ret (mkCaseResult implementation seq outcomes).

Definition decode_errored (data : record) : except CaseErrored :=
  if decide (dom data ⊆ ({["implementation"; "seq"; "context"; "caught"]} : gset string))
  then
    let* implementation := required data "implementation" in
    let* implementation := as_str implementation in
    let* seq := required data "seq" in
    let* seq := as_int seq in
    let* context := required data "context" in
    ret (mkCaseErrored implementation seq context
           (match data !! "caught" with Some (JBool b) => b | _ => true end))
  else raise TypeError.

Definition decode_skipped (data : record) : except CaseSkipped :=
  if decide (dom data ⊆ ({["implementation"; "seq"; "message"; "issue_url"]} : gset string))
  then
    let* implementation := required data "implementation" in
    let* implementation := as_str implementation in
    let* seq := required data "seq" in
    let* seq := as_int seq in
    ret (mkCaseSkipped implementation seq (default JNull (data !! "message")))
  else raise TypeError.

Definition render (v : json) : string :=
  match v with
  | JStr s => s
  | JInt n => pretty n
  | JBool true => "True"
  | JBool false => "False"
  | JNull => "None"
  | _ => ""
  end.

Definition env : Externals := {|
  datetime := string;
  URL_parse := λ s, ret (mkURL s);
  fromisoformat := as_str;
  now := "";
  installed_version := "";
  str := render;
  TestCase_from_dict := decode_case;
  CaseErrored_new := decode_errored;
  CaseSkipped_new := decode_skipped;
  CaseResult_from_dict := decode_result;
|}.

(** A header for the dialect [dialect] and the implementations
    [implementations]. *)
Definition header (dialect : string) (implementations : list (string * json)) : record :=
  {[ "dialect" := JStr dialect;
     "implementations" := JObject implementations;
     "bowtie_version" := JStr "0.1";
     "metadata" := JObject [];
     "started" := JNull ]}.

Definition draft7 : string := "http://json-schema.org/draft-07/schema#".

(** An implementation descriptor. *)
Definition descriptor (image : string) (dialects : list string) : string * json :=
  (image,
   JObject [ ("name", JStr image); ("language", JStr "python");
             ("image", JStr image); ("dialects", JArray (JStr <$> dialects)) ]).

(** A case record with [n] tests. *)
Definition case_body (description : string) (n : nat) : json :=
  JObject [ ("description", JStr description);
            ("schema", JObject []);
            ("tests", JArray (replicate n
               (JObject [("description", JStr "a test");
                         ("instance", JInt 1); ("valid", JBool true)]))) ].

Definition case_record (seq : Z) (description : string) (n : nat) : record :=
  {[ "seq" := JInt seq; "case" := case_body description n ]}.

(** A result record answering [valid] to each of [n] tests. *)
Definition result_record (seq : Z) (implementation : string) (answers : list bool) : record :=
  {[ "implementation" := JStr implementation;
     "seq" := JInt seq;
     "results" := JArray ((λ b, JObject [("valid", JBool b)]) <$> answers);
     "expected" := JArray ((λ _, JBool true) <$> answers) ]}.

Definition fail_fast (flag : bool) : record := {[ "did_fail_fast" := JBool flag ]}.

(** A run of ["impl"] against Draft 7 with one case of [n] tests, to which
    it answered [got]. *)
Definition one_case (n : nat) (got : list json) : list record := [
  header draft7 [descriptor "impl" [draft7]];
  case_record 1 "one" n;
  {[ "implementation" := JStr "impl";
     "seq" := JInt 1;
     "results" := JArray got;
     "expected" := JArray ((λ _, JBool true) <$> got) ]}
].

Definition right : json := JObject [("valid", JBool true)].
Definition wrong : json := JObject [("valid", JBool false)].
Definition skipped : json := JObject [("skipped", JBool true)].

(** The two badges of ["impl"] for Draft 7. *)
Definition badges (message color : string) : list fs_op := [
  mkdir ["python-impl"; "compliance"];
  write_text ["python-impl"; "compliance"; "Draft_7.json"]
    (JObject [ ("schemaVersion", JInt 1); ("label", JStr "Draft 7");
               ("message", JStr message); ("color", JStr color) ]);
  write_text ["python-impl"; "supported_versions.json"]
    (JObject [ ("schemaVersion", JInt 1); ("label", JStr "JSON Schema Versions");
               ("message", JStr "7"); ("color", JStr "lightgreen") ])
].

(** The report of a run of ["impl"] whose case 2 arrived before case 1: case
    1 has two tests, answered right and wrong, case 2 has one. *)
Definition out_of_order : list record := [
  header draft7 [descriptor "impl" [draft7]];
  case_record 2 "two" 1;
  case_record 1 "one" 2;
  result_record 2 "impl" [true];
  result_record 1 "impl" [true; false]
].

Definition a_test : Test := mkTest (JInt 1) true.

Definition joined_report : Report.t string :=
  Report.mk
    {[ 1 := mkTestCase (JObject []) "one" [a_test; a_test];
       2 := mkTestCase (JObject []) "two" [a_test] ]}
    (RunMetadata.mk (mkURL draft7) (JObject [descriptor "impl" [draft7]])
       (JStr "0.1") (JObject []) "")
    (Summary.mk
       {[ 1 := {[ "impl" := Result (mkCaseResult "impl" 1 [TestPassed; TestFailed]) ]};
          2 := {[ "impl" := Result (mkCaseResult "impl" 2 [TestPassed]) ]} ]}
       {[ "impl" := Count.mk 1 0 0 ]})
    (JBool false).

(** Whether the result that [name] gave for the case [seq] of [self], if
    any, is a [CaseResult] with at least [n] outcomes. *)
Definition answers (self : Report.t string) (name : string) (seq : Seq)
    (case : TestCase) : bool :=
  match Summary.result_of (Report.summary self) seq name with
  | Some (Result r) => bool_decide (length (tests case) ≤ length (results r))%nat
  | Some _ => false
  | None => true
  end.

(** Run metadata for [dialect], without implementations. *)
Definition metadata_of (dialect : string) : RunMetadata.t string :=
  RunMetadata.mk (mkURL dialect) (JObject []) (JStr "0.1") (JObject []) "".

(** A case record that carries the fail-fast flag as well. *)
Definition flagged_case_record (seq : Z) (description : string) (n : nat) : record :=
  <["did_fail_fast" := JBool true]> (case_record seq description n).

(** The dict of a case, as [decode_case] reads it. *)
Definition encode_case (case : TestCase) : json :=
  JObject [ ("description", JStr (description case));
            ("schema", schema case);
            ("tests",
             JArray ((λ test, JObject [ ("instance", instance test);
                                        ("valid", JBool (valid test)) ])
                     <$> tests case)) ].

(** The lines of the examples, each named by what it holds; any other line
    is not JSON. *)
Definition parse (line : string) : except record :=
  if decide (line = "header") then ret (header draft7 [descriptor "impl" [draft7]])
  else if decide (line = "case 1") then ret (case_record 1 "one" 1)
  else if decide (line = "result 1") then ret (result_record 1 "impl" [true])
  else if decide (line = "fail fast") then ret (fail_fast true)
  else raise ValueError.

(** A run of ["impl"] and ["other"] against Draft 7 with one case, which
    only ["impl"] answered. *)
Definition two_implementations : list record := [
  header draft7 [descriptor "impl" [draft7]; descriptor "other" [draft7]];
  case_record 1 "one" 1;
  result_record 1 "impl" [true]
].

Definition serializers : @Serializers env := {|
  isoformat := λ started : @datetime env, started : string;
  loads := parse;
  TestCase_serializable := encode_case;
|}.

End Sample.

(** ** Notions used by the statements *)

(** The count of one implementation once its results [l] have been counted,
    one after the other, starting from [count]. *)
Definition counted (l : list AnyCaseResult) (count : Count.t) : Count.t :=
  fold_left (λ count result, be_counted result count) l count.



(** The outcome of the test at position [i] of case [seq] that the summary
    holds for the implementation [name]: the [i]-th outcome of its
    [CaseResult] for that case. *)
Definition outcome_of `{Externals} (self : Report.t datetime) (seq : Seq) (i : nat)
    (name : string) : option AnyTestResult :=
  match Summary.result_of (Report.summary self) seq name with
  | Some (Result r) => results r !! i
  | _ => None
  end.



(** The colour bytes as the spec words them: "red channel = 100−pct, green
    channel = pct, blue channel = 0, each truncated to an integer byte". *)
Definition spec_color_bytes (pct : spec_float) : except (Z * Z * Z) :=
  let* r := int (SFsub prec emax (float 100) pct) in
  let* g := int pct in
  ret (r, g, 0).

(** Whether bits were lost in a right shift of a significand. *)
Definition inexact (x : shr_record) : bool := shr_r x || shr_s x.

(** A computation that ends in an exception. *)
Definition raises {A} (m : except A) : Prop := ∃ e, m = raise e.

(** Field-wise sum of two counts. *)
Definition Count_add (a b : Count.t) : Count.t :=
  Count.mk (Count.failed_tests a + Count.failed_tests b)
           (Count.errored_tests a + Count.errored_tests b)
           (Count.skipped_tests a + Count.skipped_tests b).

(** The pair a summary files a result under. *)
Definition key (result : AnyCaseResult) : Seq * string :=
  (seq result, implementation result).

(** The results a summary holds for the implementation [i], over all the
    cases. *)
Definition stored (self : Summary.t) (i : string) : list AnyCaseResult :=
  omap (λ case_results : gmap string AnyCaseResult, case_results !! i)
       (map_to_list (Summary._results self)).*2.

(** A summary is consistent when every result it holds is filed under its
    own [seq] and [implementation], and the implementations that have a
    count are those it holds a result for, the count being what
    [be_counted] makes of these results, taken in some order from
    [Count()]. *)
Definition consistent (self : Summary.t) : Prop :=
  (∀ s i result,
     Summary.result_of self s i = Some result → key result = (s, i))
  ∧ (∀ i,
       match Summary.by_implementation self !! i with
       | Some count =>
           stored self i ≠ []
           ∧ ∃ l, l ≡ₚ stored self i ∧ count = counted l Count.new
       | None => stored self i = []
       end).

(** The record [data] is matched by the second, the third or the last
    pattern of [from_input], and the decoder of that pattern makes [result]
    of it. *)
Definition decoded `{Externals} (data : record) (result : AnyCaseResult) : Prop :=
  (is_Some (data !! "caught")
   ∧ ∃ error, CaseErrored_new data = ret error ∧ result = Errored error)
  ∨ (data !! "caught" = None
     ∧ data !! "skipped" = Some (JBool true)
     ∧ ∃ skip,
         CaseSkipped_new (delete "skipped" data) = ret skip ∧ result = Skipped skip)
  ∨ (data !! "caught" = None
     ∧ data !! "skipped" ≠ Some (JBool true)
     ∧ data !! "did_fail_fast" = None
     ∧ ∃ r, CaseResult_from_dict data = ret r ∧ result = Result r).

(** The record [data] is not a case record, and [from_input] decodes it to
    [result]. *)
Definition decodes `{Externals} (data : record) (result : AnyCaseResult) : Prop :=
  (data !! "seq" ≫= as_Seq = None ∨ data !! "case" = None)
  ∧ decoded data result.

(** The record [data] is a case record for [seq] whose payload decodes to
    [case]. *)
Definition registers `{Externals} (md : RunMetadata.t datetime) (data : record)
    (seq : Seq) (case : TestCase) : Prop :=
  data !! "seq" ≫= as_Seq = Some seq
  ∧ ∃ members,
      data !! "case" = Some (JObject members)
      ∧ TestCase_from_dict (RunMetadata.dialect md) (without "dialect" members)
        = ret case.

(** The path an operation of the file system is about. *)
Definition path (op : fs_op) : list string :=
  match op with
  | mkdir path => path
  | write_text path _ => path
  end.

(** The keywords [from_dict] and the constructor of [RunMetadata] know. *)
Definition header_keys : gset string :=
  {[ "dialect"; "started"; "implementations"; "bowtie_version"; "metadata" ]}.

(** * Properties *)

(** ** The error monad *)

Lemma bind_ret {A B} (m : except A) (k : A → except B) (b : B) :
  bind m k = ret b ↔ ∃ a, m = ret a ∧ k a = ret b.
Proof.
  destruct m as [e|a]; simpl; split.
  - discriminate.
  - intros (a & [=] & _).
  - eauto.
  - by intros (a' & [= <-] & ?).
Qed.

Lemma bind_ret_l {A B} (a : A) (k : A → except B) : bind (ret a) k = k a.
Proof. reflexivity. Qed.

Lemma bind_raise {A B} (m : except A) (k : A → except B) (e : exn) :
  m = raise e → bind m k = raise e.
Proof. by intros ->. Qed.

(** ** Summary.with_result *)

Section summary.
Implicit Types (self : Summary.t) (result : AnyCaseResult).

Lemma with_result_duplicate self result :
  is_Some (Summary.result_of self (seq result) (implementation result)) →
  Summary.with_result self result
  = raise (InvalidBowtieReport (DuplicateResult (seq result))).
Proof.
  intros Hdup. unfold Summary.with_result. by rewrite decide_True.
Qed.

Lemma with_result_fresh self result :
  Summary.result_of self (seq result) (implementation result) = None →
  Summary.with_result self result
  = ret (Summary.mk
      (<[seq result :=
           <[implementation result := result]>
             (default ∅ (Summary._results self !! seq result))]>
         (Summary._results self))
      (<[implementation result :=
           be_counted result
             (default Count.new
                (Summary.by_implementation self !! implementation result))]>
         (Summary.by_implementation self))).
Proof.
  intros Hfresh. unfold Summary.with_result.
  rewrite decide_False; [done|].
  fold (Summary.result_of self (seq result) (implementation result)).
  rewrite Hfresh. by intros [? [=]].
Qed.

Lemma result_of_insert self s i result s' i' counts :
  Summary.result_of
    (Summary.mk
       (<[s := <[i := result]> (default ∅ (Summary._results self !! s))]>
          (Summary._results self))
       counts) s' i'
  = if decide (s = s' ∧ i = i') then Some result else Summary.result_of self s' i'.
Proof.
  unfold Summary.result_of; simpl.
  destruct (decide (s = s')) as [<-|Hs].
  - rewrite lookup_insert_eq; simpl.
    destruct (decide (i = i')) as [<-|Hi].
    + rewrite lookup_insert_eq. by rewrite decide_True.
    + rewrite lookup_insert_ne by done. rewrite decide_False; [done|]. by intros [_ ?].
  - rewrite lookup_insert_ne by done. rewrite decide_False; [done|]. by intros [? _].
Qed.

(** C1. [with_result] is one transition from [self] to the new summary:
    when no result is stored for the pair [(seq, implementation)] of
    [result], the new summary holds [result] at that pair together with the
    implementation's updated count, computed by [be_counted] from the count
    looked up in [self] ([Count()] when there is none), and every other
    entry of both maps is as in [self]; when a result is already stored for
    the pair, it raises the duplicate-result error and there is no new
    summary, so the stored result is never overwritten. *)
Theorem with_result_inserts_or_rejects self result :
  match Summary.result_of self (seq result) (implementation result) with
  | Some stored =>
      Summary.with_result self result
      = raise (InvalidBowtieReport (DuplicateResult (seq result)))
  | None =>
      ∃ self',
        Summary.with_result self result = ret self'
        ∧ Summary.result_of self' (seq result) (implementation result) = Some result
        ∧ Summary.by_implementation self' !! implementation result
          = Some (be_counted result
                    (default Count.new
                       (Summary.by_implementation self !! implementation result)))
        ∧ (∀ s i, (s, i) ≠ (seq result, implementation result) →
             Summary.result_of self' s i = Summary.result_of self s i)
        ∧ (∀ i, i ≠ implementation result →
             Summary.by_implementation self' !! i = Summary.by_implementation self !! i)
  end.
Proof.
  destruct (Summary.result_of self (seq result) (implementation result))
    as [stored|] eqn:Hstored.
  - apply with_result_duplicate. by rewrite Hstored.
  - eexists. split; [by apply with_result_fresh|].
    split; [|split; [|split]].
    + rewrite result_of_insert. by rewrite decide_True.
    + simpl. by rewrite lookup_insert_eq.
    + intros s i Hne. rewrite result_of_insert.
      rewrite decide_False; [done|]. intros [<- <-]. by apply Hne.
    + intros i Hne. simpl. by rewrite lookup_insert_ne.
Qed.

End summary.

(** A first result for case 1 is stored with its count; a second one for
    the same case and implementation is refused. *)
Lemma with_result_inserts_or_rejects_example :
  (∃ self',
     Summary.with_result Summary.new
       (Result (mkCaseResult "impl" 1 [TestPassed; TestFailed])) = ret self'
     ∧ Summary.result_of self' 1 "impl"
       = Some (Result (mkCaseResult "impl" 1 [TestPassed; TestFailed]))
     ∧ Summary.by_implementation self' !! "impl" = Some (Count.mk 1 0 0))
  ∧ Summary.with_result
      (Summary.mk {[ 1 := {[ "impl" := Skipped (mkCaseSkipped "impl" 1 JNull) ]} ]}
                  {[ "impl" := Count.mk 0 0 1 ]})
      (Result (mkCaseResult "impl" 1 [TestPassed; TestFailed]))
    = raise (InvalidBowtieReport (DuplicateResult 1)).
Proof.
  split.
  - pose proof (with_result_inserts_or_rejects Summary.new
                  (Result (mkCaseResult "impl" 1 [TestPassed; TestFailed]))) as Hnew.
    vm_compute Summary.result_of in Hnew.
    destruct Hnew as (self' & Hself' & Hresult & Hcount & _).
    exists self'. split; [exact Hself'|]. split; [exact Hresult|exact Hcount].
  - pose proof (with_result_inserts_or_rejects
                  (Summary.mk
                     {[ 1 := {[ "impl" := Skipped (mkCaseSkipped "impl" 1 JNull) ]} ]}
                     {[ "impl" := Count.mk 0 0 1 ]})
                  (Result (mkCaseResult "impl" 1 [TestPassed; TestFailed]))) as Hdup.
    vm_compute Summary.result_of in Hdup. exact Hdup.
Defined.

(** ** Counting is independent of the order of arrival *)

Section counting.
Implicit Types (count : Count.t) (result : AnyCaseResult).

Lemma Count_add_new count : Count_add count Count.new = count.
Proof. destruct count. unfold Count_add; simpl. f_equal; lia. Qed.

Lemma Count_add_assoc a b c :
  Count_add (Count_add a b) c = Count_add a (Count_add b c).
Proof. unfold Count_add; simpl. f_equal; lia. Qed.

Lemma Count_add_comm a b : Count_add a b = Count_add b a.
Proof. unfold Count_add; simpl. f_equal; lia. Qed.

Lemma count_test_add count outcome :
  count_test count outcome = Count_add count (count_test Count.new outcome).
Proof.
  destruct count, outcome; unfold Count_add; simpl; f_equal; lia.
Qed.

Lemma count_tests_add outcomes count :
  fold_left count_test outcomes count
  = Count_add count (fold_left count_test outcomes Count.new).
Proof.
  revert count. induction outcomes as [|outcome outcomes IH]; intros count;
    cbn [fold_left].
  - by rewrite Count_add_new.
  - rewrite IH, (IH (count_test Count.new outcome)).
    by rewrite (count_test_add count), Count_add_assoc.
Qed.

(** A result adds its own contribution to whatever count it is given. *)
Lemma be_counted_add result count :
  be_counted result count = Count_add count (be_counted result Count.new).
Proof.
  destruct result as [r|e|s].
  - destruct count; simpl. apply count_tests_add.
  - destruct count; unfold Count_add; simpl; f_equal; lia.
  - destruct count; unfold Count_add; simpl; f_equal; lia.
Qed.

Lemma be_counted_comm result1 result2 count :
  be_counted result1 (be_counted result2 count)
  = be_counted result2 (be_counted result1 count).
Proof.
  rewrite (be_counted_add result1 (be_counted result2 count)).
  rewrite (be_counted_add result2 (be_counted result1 count)).
  rewrite (be_counted_add result2 count), (be_counted_add result1 count).
  rewrite !Count_add_assoc. f_equal. apply Count_add_comm.
Qed.

Lemma counted_permutation l l' count :
  l ≡ₚ l' → counted l count = counted l' count.
Proof.
  intros Hperm. revert count.
  induction Hperm as [|result l l' _ IH|result1 result2 l|l l' l'' _ IH1 _ IH2];
    intros count; simpl.
  - done.
  - apply IH.
  - unfold counted; simpl. by rewrite be_counted_comm.
  - by rewrite IH1.
Qed.

(** Results of one implementation for distinct cases, none of them stored
    yet, are all accepted, and the implementation ends up with the count of
    all of them. *)
Lemma with_results_counted impl l : ∀ self,
  Forall (λ result, implementation result = impl) l →
  NoDup (seq <$> l) →
  Forall (λ result, Summary.result_of self (seq result) impl = None) l →
  ∃ self',
    Summary.with_results self l = ret self'
    ∧ Summary.by_implementation self' !! impl
      = match l with
        | [] => Summary.by_implementation self !! impl
        | _ => Some (counted l (default Count.new (Summary.by_implementation self !! impl)))
        end.
Proof.
  induction l as [|result l IH]; intros self Himpl Hseqs Hfresh.
  - by exists self.
  - apply Forall_cons in Himpl as [Hi Himpl].
    apply Forall_cons in Hfresh as [Hr Hfresh].
    rewrite fmap_cons in Hseqs. apply NoDup_cons in Hseqs as [Hnotin Hseqs].
    simpl. rewrite <-Hi in Hr. rewrite (with_result_fresh _ _ Hr). simpl.
    edestruct IH as (self' & -> & Hcount); [done..| |].
    + apply Forall_forall. intros result' Hin.
      rewrite <-Hi, result_of_insert. rewrite decide_False.
      * rewrite Hi. by eapply Forall_forall in Hfresh.
      * intros [Heq _]. apply Hnotin. rewrite Heq.
        by apply list_elem_of_fmap_2.
    + exists self'. split; [done|]. rewrite Hcount. simpl.
      rewrite Hi, lookup_insert_eq.
      by destruct l.
Qed.

(** C3. Results of one implementation whose [seq] are pairwise distinct,
    folded by [with_result] into a summary that holds none of them yet, are
    all accepted in whatever order they arrive, and every order leaves the
    implementation with the same [Count]. *)
Theorem count_order_independent impl self l l' :
  l ≡ₚ l' →
  Forall (λ result, implementation result = impl) l →
  NoDup (seq <$> l) →
  Forall (λ result, Summary.result_of self (seq result) impl = None) l →
  ∃ self1 self2,
    Summary.with_results self l = ret self1
    ∧ Summary.with_results self l' = ret self2
    ∧ Summary.by_implementation self1 !! impl
      = Summary.by_implementation self2 !! impl.
Proof.
  intros Hperm Himpl Hseqs Hfresh.
  destruct (with_results_counted impl l self) as (self1 & H1 & Hc1); [done..|].
  destruct (with_results_counted impl l' self) as (self2 & H2 & Hc2).
  - by rewrite <-Hperm.
  - by rewrite <-Hperm.
  - by rewrite <-Hperm.
  - exists self1, self2. split; [done|]. split; [done|].
    rewrite Hc1, Hc2.
    destruct l as [|result l], l' as [|result' l']; try done.
    + by apply Permutation_nil_cons in Hperm.
    + symmetry in Hperm. by apply Permutation_nil_cons in Hperm.
    + f_equal. by apply counted_permutation.
Qed.

End counting.

(** ** Report.from_input *)

Section assembly.
Context `{Externals}.
Implicit Types (md : RunMetadata.t datetime) (cases : gmap Seq TestCase)
  (summary : Summary.t) (data header : record).

(** The loop goes on from the state its first records left. *)
Lemma consume_after md consumed : ∀ cases summary cases' summary' iterator,
  Report.after md cases summary consumed = Some (cases', summary') →
  Report.consume md cases summary (consumed ++ iterator)
  = Report.consume md cases' summary' iterator.
Proof.
  induction consumed as [|data consumed IH];
    intros cases summary cases' summary' iterator; simpl.
  - by intros [= -> ->].
  - destruct (Report.dispatch md cases summary data) as [e|[cases1 summary1|flag]];
      simpl; [done| |done].
    apply IH.
Qed.

(** A record with an integer ["seq"] and a ["case"] is a case record, and is
    refused when its [seq] is registered, before its payload is touched. *)
Lemma dispatch_duplicate_case md cases summary data seq :
  data !! "seq" ≫= as_Seq = Some seq →
  is_Some (data !! "case") →
  is_Some (cases !! seq) →
  Report.dispatch md cases summary data
  = raise (InvalidBowtieReport (DuplicateCase seq)).
Proof.
  intros Hseq [case Hcase] Hregistered. unfold Report.dispatch.
  rewrite Hseq, Hcase. by rewrite decide_True.
Qed.

(** A record with ["did_fail_fast"] that none of the three patterns before
    that one matches leaves the loop. *)
Lemma dispatch_break md cases summary data flag :
  data !! "did_fail_fast" = Some flag →
  data !! "seq" ≫= as_Seq = None ∨ data !! "case" = None →
  data !! "caught" = None →
  data !! "skipped" ≠ Some (JBool true) →
  Report.dispatch md cases summary data = ret (Report.Break flag).
Proof.
  intros Hflag Hcase Hcaught Hskipped. unfold Report.dispatch.
  assert (Hrest :
    (if decide (is_Some (data !! "caught")) then
       let* error := CaseErrored_new data in
       let* summary := Summary.with_result summary (Errored error) in
       ret (Report.Next cases summary)
     else
       match data !! "skipped" with
       | Some (JBool true) =>
           let* skip := CaseSkipped_new (delete "skipped" data) in
           let* summary := Summary.with_result summary (Skipped skip) in
           ret (Report.Next cases summary)
       | _ =>
           match data !! "did_fail_fast" with
           | Some did_fail_fast => ret (Report.Break did_fail_fast)
           | None =>
               let* result := CaseResult_from_dict data in
               let* summary := Summary.with_result summary (Result result) in
               ret (Report.Next cases summary)
           end
       end) = ret (Report.Break flag)).
  { rewrite decide_False by (rewrite Hcaught; by intros [? [=]]).
    rewrite Hflag.
    destruct (data !! "skipped") as [[| [] | | | | |]|]; done. }
  destruct Hcase as [-> | ->]; [done|].
  by destruct (data !! "seq" ≫= as_Seq).
Qed.

(** A record with none of the keys ["case"], ["caught"], ["skipped"],
    ["did_fail_fast"] is decoded as a [CaseResult] and counted. *)
Lemma dispatch_result md cases summary data result summary' :
  data !! "case" = None →
  data !! "caught" = None →
  data !! "skipped" = None →
  data !! "did_fail_fast" = None →
  CaseResult_from_dict data = ret result →
  Summary.with_result summary (Result result) = ret summary' →
  Report.dispatch md cases summary data = ret (Report.Next cases summary').
Proof.
  intros Hcase Hcaught Hskipped Hflag Hresult Hsummary. unfold Report.dispatch.
  rewrite Hcase, Hskipped, Hflag, Hresult. simpl. rewrite Hsummary. simpl.
  rewrite decide_False by (rewrite Hcaught; by intros [? [=]]).
  by destruct (data !! "seq" ≫= as_Seq).
Qed.

(** A case record whose [seq] is new registers the decoded case. *)
Lemma dispatch_case md cases summary data seq members case :
  data !! "seq" ≫= as_Seq = Some seq →
  data !! "case" = Some (JObject members) →
  cases !! seq = None →
  TestCase_from_dict (RunMetadata.dialect md) (without "dialect" members) = ret case →
  Report.dispatch md cases summary data
  = ret (Report.Next (<[seq := case]> cases) summary).
Proof.
  intros Hseq Hcase Hnew Hdecoded. unfold Report.dispatch.
  rewrite Hseq, Hcase.
  rewrite decide_False by (rewrite Hnew; by intros [? [=]]).
  by rewrite Hdecoded.
Qed.

(** C9. [from_input] of a stream without a header raises [EmptyReport]. *)
Theorem from_input_empty : Report.from_input [] = raise EmptyReport.
Proof. reflexivity. Qed.

(** C8. When the loop of [from_input] reaches a case record (a record with
    an integer ["seq"] and a ["case"]) whose [seq] is registered, it raises
    [_InvalidBowtieReport] for a duplicate case, whatever the ["case"] of
    the record holds, whatever case was registered at that [seq], and
    whatever follows in the stream. *)
Theorem from_input_duplicate_case header md consumed cases summary data seq rest :
  RunMetadata.from_dict header = ret md →
  Report.after md ∅ Summary.new consumed = Some (cases, summary) →
  data !! "seq" ≫= as_Seq = Some seq →
  is_Some (data !! "case") →
  is_Some (cases !! seq) →
  Report.from_input (header :: consumed ++ data :: rest)
  = raise (InvalidBowtieReport (DuplicateCase seq)).
Proof.
  intros Hheader Hconsumed Hseq Hcase Hregistered.
  unfold Report.from_input. rewrite Hheader. simpl.
  rewrite (consume_after _ _ _ _ _ _ _ Hconsumed). simpl.
  by rewrite (dispatch_duplicate_case _ _ _ _ seq).
Qed.

End assembly.

(** ** Leaving the loop on the fail-fast flag *)

Section fail_fast.
Context `{Externals}.
Implicit Types (md : RunMetadata.t datetime) (cases : gmap Seq TestCase)
  (summary : Summary.t) (data header : record).

Lemma with_result_new result :
  Summary.with_result Summary.new result
  = ret (Summary.mk {[ seq result := {[ implementation result := result ]} ]}
                    {[ implementation result := be_counted result Count.new ]}).
Proof. by rewrite with_result_fresh. Qed.

(** C2, as the code has it. The flag ends the loop when the record that
    carries it is matched by none of the patterns tried before that one: it
    is then bound to [did_fail_fast], the records after it stay in the
    iterator, and the report is the state the loop had reached. A stream
    that ends without leaving the loop yields [did_fail_fast = False]. In
    particular the stream [header, case 1, result, {did_fail_fast: true},
    c2, r2] yields the report with the one case, the one result and the
    flag [True], whatever the records [c2] and [r2] are. *)
Theorem fail_fast_truncates :
  (∀ header md consumed cases summary data flag rest,
     RunMetadata.from_dict header = ret md →
     Report.after md ∅ Summary.new consumed = Some (cases, summary) →
     data !! "did_fail_fast" = Some flag →
     data !! "seq" ≫= as_Seq = None ∨ data !! "case" = None →
     data !! "caught" = None →
     data !! "skipped" ≠ Some (JBool true) →
     Report.consume md ∅ Summary.new (consumed ++ data :: rest)
     = ret (cases, summary, flag, rest)
     ∧ Report.from_input (header :: consumed ++ data :: rest)
       = ret (Report.mk cases md summary flag))
  ∧ (∀ header md consumed cases summary,
       RunMetadata.from_dict header = ret md →
       Report.after md ∅ Summary.new consumed = Some (cases, summary) →
       Report.from_input (header :: consumed)
       = ret (Report.mk cases md summary (JBool false)))
  ∧ (∀ header md members case r1 result c2 r2,
       RunMetadata.from_dict header = ret md →
       TestCase_from_dict (RunMetadata.dialect md) (without "dialect" members)
       = ret case →
       r1 !! "case" = None → r1 !! "caught" = None →
       r1 !! "skipped" = None → r1 !! "did_fail_fast" = None →
       CaseResult_from_dict r1 = ret result →
       Report.from_input
         [ header;
           {[ "seq" := JInt 1; "case" := JObject members ]};
           r1;
           {[ "did_fail_fast" := JBool true ]};
           c2; r2 ]
       = ret (Report.mk {[ 1 := case ]} md
                (Summary.mk
                   {[ result_seq result :=
                        {[ result_implementation result := Result result ]} ]}
                   {[ result_implementation result :=
                        be_counted (Result result) Count.new ]})
                (JBool true))).
Proof.
  assert (Hterminal : ∀ header md consumed cases summary data flag rest,
     RunMetadata.from_dict header = ret md →
     Report.after md ∅ Summary.new consumed = Some (cases, summary) →
     data !! "did_fail_fast" = Some flag →
     data !! "seq" ≫= as_Seq = None ∨ data !! "case" = None →
     data !! "caught" = None →
     data !! "skipped" ≠ Some (JBool true) →
     Report.consume md ∅ Summary.new (consumed ++ data :: rest)
     = ret (cases, summary, flag, rest)
     ∧ Report.from_input (header :: consumed ++ data :: rest)
       = ret (Report.mk cases md summary flag)).
  { intros header md consumed cases summary data flag rest
      Hheader Hconsumed Hflag Hcase Hcaught Hskipped.
    assert (Report.consume md ∅ Summary.new (consumed ++ data :: rest)
            = ret (cases, summary, flag, rest)) as Hloop.
    { rewrite (consume_after _ _ _ _ _ _ _ Hconsumed). simpl.
      by rewrite (dispatch_break _ _ _ _ flag). }
    split; [done|].
    unfold Report.from_input. rewrite Hheader. simpl. by rewrite Hloop. }
  split; [exact Hterminal|]. split.
  - intros header md consumed cases summary Hheader Hconsumed.
    unfold Report.from_input. rewrite Hheader. simpl.
    rewrite <-(app_nil_r consumed).
    by rewrite (consume_after _ _ _ _ _ _ _ Hconsumed).
  - intros header md members case r1 result c2 r2
      Hheader Hdecoded Hcase Hcaught Hskipped Hflag Hresult.
    refine (proj2 (Hterminal header md
      [ {[ "seq" := JInt 1; "case" := JObject members ]}; r1 ] _ _
      {[ "did_fail_fast" := JBool true ]} (JBool true) [c2; r2] Hheader _ _ _ _ _)).
    + cbn [Report.after].
      rewrite (dispatch_case _ _ _ _ 1 members case); [|done..].
      cbv beta iota delta [ret].
      change (@inr exn ?A) with (@ret A).
      rewrite (dispatch_result _ _ _ _ result _ Hcase Hcaught Hskipped Hflag Hresult
                 (with_result_new _)).
      by rewrite insert_empty.
    + done.
    + by right.
    + done.
    + done.
Qed.

End fail_fast.

Section fail_fast_examples.
#[local] Existing Instance Sample.env.

(** The stream of the spec's example: the report holds case 1 and its
    result only, and the flag. *)
Lemma fail_fast_truncates_example :
  ∃ md case result,
    Report.from_input
      [ Sample.header Sample.draft7 [Sample.descriptor "impl" [Sample.draft7]];
        {[ "seq" := JInt 1; "case" := Sample.case_body "one" 2 ]};
        Sample.result_record 1 "impl" [true; false];
        {[ "did_fail_fast" := JBool true ]};
        Sample.case_record 2 "two" 1;
        Sample.result_record 2 "impl" [true] ]
    = ret (Report.mk {[ 1 := case ]} md
             (Summary.mk {[ 1 := {[ "impl" := Result result ]} ]}
                         {[ "impl" := Count.mk 1 0 0 ]})
             (JBool true)).
Proof.
  eexists _, _, (mkCaseResult "impl" 1 [TestPassed; TestFailed]).
  refine (proj2 (proj2 (@fail_fast_truncates Sample.env)) _ _ _ _ _ _ _ _ _ _ _ _ _ _ _);
    vm_compute; reflexivity.
Defined.

(** A record may carry the flag and still be a case record: the first
    pattern wins, the flag is not recorded and the loop goes on to register
    case 2. *)
Lemma fail_fast_flag_in_case_record :
  Sample.flagged_case_record 1 "one" 1 !! "did_fail_fast" = Some (JBool true)
  ∧ ∃ report,
      Report.from_input
        [ Sample.header Sample.draft7 [];
          Sample.flagged_case_record 1 "one" 1;
          Sample.case_record 2 "two" 1 ]
      = ret report
      ∧ is_Some (Report._cases report !! 2)
      ∧ Report.did_fail_fast report = JBool false.
Proof.
  split; [by vm_compute|].
  eexists. split; [vm_compute; reflexivity|].
  split; [|reflexivity]. eexists. vm_compute; reflexivity.
Qed.

End fail_fast_examples.

Section assembly_examples.
#[local] Existing Instance Sample.env.

(** Case 1 is registered and answered; a second case record for [seq] 1,
    with another payload (not even an object), is refused. *)
Lemma from_input_duplicate_case_example :
  Report.from_input
    [ Sample.header Sample.draft7 [Sample.descriptor "impl" [Sample.draft7]];
      Sample.case_record 1 "one" 1;
      Sample.result_record 1 "impl" [true];
      {[ "seq" := JInt 1; "case" := JNull ]};
      Sample.case_record 2 "two" 1 ]
  = raise (InvalidBowtieReport (DuplicateCase 1)).
Proof.
  refine (@from_input_duplicate_case Sample.env _ _
            [Sample.case_record 1 "one" 1; Sample.result_record 1 "impl" [true]]
            _ _ {[ "seq" := JInt 1; "case" := JNull ]} 1
            [Sample.case_record 2 "two" 1] _ _ _ _ _).
  - vm_compute; reflexivity.
  - vm_compute; reflexivity.
  - vm_compute; reflexivity.
  - eexists. vm_compute; reflexivity.
  - eexists. vm_compute; reflexivity.
Defined.

(** Three results of one implementation, counted in two orders. *)
Lemma count_order_independent_example :
  ∃ self1 self2,
    Summary.with_results Summary.new
      [ Result (mkCaseResult "impl" 1 [TestPassed; TestFailed]);
        Errored (mkCaseErrored "impl" 2 JNull true);
        Skipped (mkCaseSkipped "impl" 3 JNull) ] = ret self1
    ∧ Summary.with_results Summary.new
      [ Skipped (mkCaseSkipped "impl" 3 JNull);
        Errored (mkCaseErrored "impl" 2 JNull true);
        Result (mkCaseResult "impl" 1 [TestPassed; TestFailed]) ] = ret self2
    ∧ Summary.by_implementation self1 !! "impl"
      = Summary.by_implementation self2 !! "impl".
Proof.
  apply (count_order_independent "impl" Summary.new
    [ Result (mkCaseResult "impl" 1 [TestPassed; TestFailed]);
      Errored (mkCaseErrored "impl" 2 JNull true);
      Skipped (mkCaseSkipped "impl" 3 JNull) ]).
  - apply (reverse_Permutation
      [ Skipped (mkCaseSkipped "impl" 3 JNull);
        Errored (mkCaseErrored "impl" 2 JNull true);
        Result (mkCaseResult "impl" 1 [TestPassed; TestFailed]) ]).
  - repeat constructor.
  - apply (bool_decide_unpack _). vm_compute. exact I.
  - repeat constructor.
Defined.

End assembly_examples.

(** ** Dialect labels *)

Section labels.
Context `{Externals}.

Lemma shortname_unknown (dialect : URL) :
  dialect ∉ known_dialects.*1 → _DIALECT_URI_TO_SHORTNAME !! dialect = None.
Proof. apply not_elem_of_list_to_map_1. Qed.

Lemma shortname_known (dialect : URL) (label : string) :
  (dialect, label) ∈ known_dialects →
  _DIALECT_URI_TO_SHORTNAME !! dialect = Some label.
Proof.
  apply elem_of_list_to_map_1. apply (bool_decide_unpack _). by vm_compute.
Qed.

(** C6. [dialect_shortname] never raises: for each of the six URIs of the
    table it is the label of that URI, and for any other URI it is the
    dialect itself, whose string form is the URI as it stands. *)
Theorem dialect_shortname_label_or_raw (self : RunMetadata.t datetime) :
  Forall
    (λ '(uri, label),
       RunMetadata.dialect self = mkURL uri →
       RunMetadata.dialect_shortname self = RunMetadata.Label label)
    [ ("https://json-schema.org/draft/2020-12/schema", "Draft 2020-12");
      ("https://json-schema.org/draft/2019-09/schema", "Draft 2019-09");
      ("http://json-schema.org/draft-07/schema#", "Draft 7");
      ("http://json-schema.org/draft-06/schema#", "Draft 6");
      ("http://json-schema.org/draft-04/schema#", "Draft 4");
      ("http://json-schema.org/draft-03/schema#", "Draft 3") ]
  ∧ (RunMetadata.dialect self ∉ known_dialects.*1 →
     RunMetadata.dialect_shortname self = RunMetadata.Raw (RunMetadata.dialect self)
     ∧ RunMetadata.shortname_str (RunMetadata.dialect_shortname self)
       = href (RunMetadata.dialect self)).
Proof.
  split.
  - repeat apply Forall_cons_2; try apply Forall_nil_2;
      intros Hdialect; unfold RunMetadata.dialect_shortname;
      rewrite Hdialect; by erewrite shortname_known by (repeat constructor).
  - intros Hunknown. unfold RunMetadata.dialect_shortname.
    by rewrite (shortname_unknown _ Hunknown).
Qed.

(** C10. For a report whose dialect is none of the six URIs of the table,
    [generate_badges] raises [KeyError] at its first statement, the lookup
    of the label, and has written nothing; the fallback of
    [dialect_shortname], which is the dialect itself for such a report, is
    not used there. *)
Theorem generate_badges_unknown_dialect (self : Report.t datetime) :
  Report.dialect self ∉ known_dialects.*1 →
  shortname_getitem (Report.dialect self) = raise KeyError
  ∧ Report.generate_badges self = ([], Some KeyError)
  ∧ RunMetadata.dialect_shortname (Report.metadata self)
    = RunMetadata.Raw (Report.dialect self).
Proof.
  intros Hunknown.
  assert (shortname_getitem (Report.dialect self) = raise KeyError) as Hlabel.
  { unfold shortname_getitem. by rewrite (shortname_unknown _ Hunknown). }
  split; [done|]. split.
  - unfold Report.generate_badges. by rewrite Hlabel.
  - unfold RunMetadata.dialect_shortname, Report.dialect in *.
    by rewrite (shortname_unknown _ Hunknown).
Qed.

End labels.

Section labels_examples.
#[local] Existing Instance Sample.env.

(** Draft 7 has its label; a dialect outside the table is returned as it
    is. *)
Lemma dialect_shortname_label_or_raw_example :
  RunMetadata.dialect_shortname (Sample.metadata_of Sample.draft7)
  = RunMetadata.Label "Draft 7"
  ∧ RunMetadata.dialect_shortname (Sample.metadata_of "https://example.com/dialect")
    = RunMetadata.Raw (mkURL "https://example.com/dialect")
  ∧ RunMetadata.shortname_str
      (RunMetadata.dialect_shortname (Sample.metadata_of "https://example.com/dialect"))
    = "https://example.com/dialect".
Proof.
  split.
  - destruct (@dialect_shortname_label_or_raw Sample.env
                (Sample.metadata_of Sample.draft7)) as [Hknown _].
    apply (Forall_lookup_1 _ _ 2 ("http://json-schema.org/draft-07/schema#", "Draft 7")
             Hknown); reflexivity.
  - destruct (@dialect_shortname_label_or_raw Sample.env
                (Sample.metadata_of "https://example.com/dialect")) as [_ Hraw].
    apply Hraw. apply (bool_decide_unpack _). vm_compute. exact I.
Defined.

(** A run against a dialect the table does not know, with an implementation
    that supports it and answered its one case. *)
Lemma generate_badges_unknown_dialect_example :
  ∃ report,
    Report.from_input
      [ Sample.header "https://example.com/dialect"
          [Sample.descriptor "impl" ["https://example.com/dialect"]];
        Sample.case_record 1 "one" 1;
        Sample.result_record 1 "impl" [true] ] = ret report
    ∧ shortname_getitem (Report.dialect report) = raise KeyError
    ∧ Report.generate_badges report = ([], Some KeyError)
    ∧ RunMetadata.dialect_shortname (Report.metadata report)
      = RunMetadata.Raw (Report.dialect report).
Proof.
  eexists. split; [vm_compute; reflexivity|].
  apply (@generate_badges_unknown_dialect Sample.env).
  apply (bool_decide_unpack _). vm_compute. exact I.
Defined.

End labels_examples.

(** ** Badges of a report without tests *)

Section no_tests.
Context `{Externals}.
Implicit Types (self : Report.t datetime) (impl : json).

Lemma raises_bind {A B} (m : except A) (k : A → except B) :
  (∀ a, raises (k a)) → raises (bind m k).
Proof. intros Hk. destruct m as [e|a]; [by exists e|apply Hk]. Qed.

Lemma raises_bind_l {A B} (m : except A) (k : A → except B) :
  raises m → raises (bind m k).
Proof. by intros [e ->]; exists e. Qed.

Lemma percentage_no_tests passed :
  Report.percentage passed 0 = raise ZeroDivisionError.
Proof. reflexivity. Qed.

(** Without tests, the body of the loop writes nothing: it skips the
    implementation or raises; it raises when the implementation declares the
    dialect of the report. *)
Lemma badges_of_no_tests self label impl :
  (Report.badges_of self label 0 impl = ret [] ∨ raises (Report.badges_of self label 0 impl))
  ∧ (∀ dialect_versions,
       Report.dialect_versions impl = ret dialect_versions →
       Report.dialect self ∈ dialect_versions →
       raises (Report.badges_of self label 0 impl)).
Proof.
  unfold Report.badges_of.
  destruct (Report.dialect_versions impl) as [e|dialect_versions]; simpl.
  { split; [right; by exists e|done]. }
  destruct (decide (Report.dialect self ∉ dialect_versions)) as [Hskip|Hdeclared].
  - split; [by left|]. by intros ? [= <-] ?.
  - assert (raises
      (let* shortnames := traverse shortname_getitem (reverse dialect_versions) in
       let supported_drafts := join ", " (removeprefix "Draft " <$> shortnames) in
       let* name := getitem impl "name" in
       let* lang := getitem impl "language" in
       let* image := getitem impl "image" in
       let* counts := Report.counts_getitem self image in
       let passed := Report.passed_tests 0 counts in
       let* pct := Report.percentage passed 0 in
       let* rgb := Report.color_bytes pct in
       let* shown := int pct in
       ret [ mkdir [str lang +:+ "-" +:+ str name; "compliance"];
             write_text
               ([str lang +:+ "-" +:+ str name; "compliance"]
                  ++ [replace " " "_" label +:+ ".json"])
               (JObject [
                  ("schemaVersion", JInt 1);
                  ("label", JStr label);
                  ("message", JStr (pretty shown +:+ "% Passing"));
                  ("color", JStr (Report.color rgb)) ]);
             write_text [str lang +:+ "-" +:+ str name; "supported_versions.json"]
               (JObject [
                  ("schemaVersion", JInt 1);
                  ("label", JStr "JSON Schema Versions");
                  ("message", JStr supported_drafts);
                  ("color", JStr "lightgreen") ]) ])) as Hraises.
    { do 5 (apply raises_bind; intros ?; cbv zeta).
      apply raises_bind_l. by exists ZeroDivisionError. }
    split; [by right|by intros _ _ _].
Qed.

Lemma write_badges_no_tests self label impls :
  (Report.write_badges self label 0 impls).1 = []
  ∧ (∀ impl dialect_versions,
       impl ∈ impls →
       Report.dialect_versions impl = ret dialect_versions →
       Report.dialect self ∈ dialect_versions →
       is_Some (Report.write_badges self label 0 impls).2).
Proof.
  induction impls as [|impl' impls [IHwritten IHraised]]; simpl.
  - split; [done|]. by intros ?? ?%elem_of_nil.
  - destruct (badges_of_no_tests self label impl') as [[Hskip|[e He]] Hdeclared].
    + rewrite Hskip.
      destruct (Report.write_badges self label 0 impls) as [more e] eqn:Hmore.
      simpl in *. split; [done|].
      intros impl dialect_versions [->|Hin]%elem_of_cons Hversions Hin'.
      * destruct (Hdeclared _ Hversions Hin') as [e' He']. by rewrite Hskip in He'.
      * by eapply IHraised.
    + rewrite He. simpl. split; [done|]. by eexists.
Qed.

(** The division itself: an implementation that declares the dialect, whose
    declared dialects are all in the table and whose descriptor and count
    are there, reaches [passed / total] and raises [ZeroDivisionError]. *)
Lemma badges_of_zero_division self label impl dialect_versions name lang image counts :
  Report.dialect_versions impl = ret dialect_versions →
  Report.dialect self ∈ dialect_versions →
  Forall (λ each, each ∈ known_dialects.*1) dialect_versions →
  getitem impl "name" = ret name →
  getitem impl "language" = ret lang →
  getitem impl "image" = ret image →
  Report.counts_getitem self image = ret counts →
  Report.badges_of self label 0 impl = raise ZeroDivisionError.
Proof.
  intros Hversions Hdeclared Hknown Hname Hlang Himage Hcounts.
  unfold Report.badges_of. rewrite Hversions. simpl.
  rewrite decide_False by (by intros ?).
  assert (∃ shortnames,
    traverse shortname_getitem (reverse dialect_versions) = ret shortnames)
    as [shortnames ->].
  { apply Forall_reverse in Hknown.
    induction Hknown as [|each l Heach _ [shortnames IH]]; [by eexists|].
    simpl. unfold shortname_getitem at 1.
    apply list_elem_of_fmap in Heach as ([each' label'] & -> & Hin).
    cbn [fst]. rewrite (shortname_known _ _ Hin). simpl. rewrite IH. by eexists. }
  rewrite bind_ret_l. cbv zeta.
  by rewrite Hname, bind_ret_l, Hlang, bind_ret_l, Himage, bind_ret_l, Hcounts.
Qed.

(** C5, as the code has it. On a report without tests [generate_badges]
    writes nothing; the division [passed / total] is not guarded and an
    implementation that declares the dialect of the report is not skipped:
    the call ends with an exception. That exception is [ZeroDivisionError]
    when the dialect is in the table and the first implementation that
    declares it has its declared dialects in the table, its ["name"],
    ["language"] and ["image"], and a count. *)
Theorem generate_badges_no_tests self :
  Report.total_tests self = 0 →
  (Report.generate_badges self).1 = []
  ∧ (∀ impls impl dialect_versions,
       RunMetadata.implementations (Report.metadata self) = ret impls →
       impl ∈ impls →
       Report.dialect_versions impl = ret dialect_versions →
       Report.dialect self ∈ dialect_versions →
       is_Some (Report.generate_badges self).2)
  ∧ (∀ skipped impl impls dialect_versions name lang image counts,
       Report.dialect self ∈ known_dialects.*1 →
       RunMetadata.implementations (Report.metadata self)
       = ret (skipped ++ impl :: impls) →
       Forall (λ other, ∃ others,
                 Report.dialect_versions other = ret others
                 ∧ Report.dialect self ∉ others) skipped →
       Report.dialect_versions impl = ret dialect_versions →
       Report.dialect self ∈ dialect_versions →
       Forall (λ each, each ∈ known_dialects.*1) dialect_versions →
       getitem impl "name" = ret name →
       getitem impl "language" = ret lang →
       getitem impl "image" = ret image →
       Report.counts_getitem self image = ret counts →
       Report.generate_badges self = ([], Some ZeroDivisionError)).
Proof.
  intros Htotal. unfold Report.generate_badges. rewrite Htotal.
  split; [|split].
  - destruct (shortname_getitem _) as [e|label]; [done|].
    destruct (RunMetadata.implementations _) as [e|impls]; [done|].
    apply write_badges_no_tests.
  - intros impls impl dialect_versions -> Hin Hversions Hdeclared.
    destruct (shortname_getitem _) as [e|label]; [by eexists|].
    by eapply write_badges_no_tests.
  - intros skipped impl impls dialect_versions name lang image counts
      Hdialect -> Hskipped Hversions Hdeclared Hknown Hname Hlang Himage Hcounts.
    apply list_elem_of_fmap in Hdialect as ([dialect label] & Hd & Hin).
    simpl in Hd.
    assert (shortname_getitem (Report.dialect self) = ret label) as ->.
    { unfold shortname_getitem. by rewrite Hd, (shortname_known _ _ Hin). }
    change (Report.write_badges self label 0 (skipped ++ impl :: impls)
            = ([], Some ZeroDivisionError)).
    induction Hskipped as [|other skipped (others & Hothers & Hnot) _ IH]; simpl.
    + by erewrite badges_of_zero_division.
    + unfold Report.badges_of at 1. rewrite Hothers, bind_ret_l.
      rewrite decide_True by done. by rewrite IH.
Qed.

End no_tests.

Section no_tests_examples.
#[local] Existing Instance Sample.env.

(** A run of one implementation against Draft 7 whose only case has no
    tests, answered by that implementation. *)
Lemma generate_badges_no_tests_example :
  ∃ report,
    Report.from_input
      [ Sample.header Sample.draft7 [Sample.descriptor "impl" [Sample.draft7]];
        Sample.case_record 1 "no tests" 0;
        Sample.result_record 1 "impl" [] ] = ret report
    ∧ (Report.generate_badges report).1 = []
    ∧ is_Some (Report.generate_badges report).2.
Proof.
  eexists. split; [vm_compute; reflexivity|].
  match goal with |- (Report.generate_badges ?r).1 = _ ∧ _ =>
    destruct (@generate_badges_no_tests Sample.env r) as (Hwritten & Hraised & _)
  end.
  - vm_compute; reflexivity.
  - split; [exact Hwritten|].
    eapply Hraised.
    + vm_compute; reflexivity.
    + apply list_elem_of_here.
    + vm_compute; reflexivity.
    + apply list_elem_of_here.
Defined.

(** On that report the implementation declares the dialect, there is no
    test, and [generate_badges] ends in the [ZeroDivisionError] of the
    unguarded division: the pair is neither skipped nor refused by an error
    of its own. *)
Lemma generate_badges_divides_by_zero :
  ∃ report impl,
    Report.from_input
      [ Sample.header Sample.draft7 [Sample.descriptor "impl" [Sample.draft7]];
        Sample.case_record 1 "no tests" 0;
        Sample.result_record 1 "impl" [] ] = ret report
    ∧ Report.total_tests report = 0
    ∧ RunMetadata.implementations (Report.metadata report) = ret [impl]
    ∧ Report.dialect_versions impl = ret [Report.dialect report]
    ∧ Report.generate_badges report = ([], Some ZeroDivisionError).
Proof.
  eexists _, _. split; [vm_compute; reflexivity|].
  repeat split; vm_compute; reflexivity.
Qed.

End no_tests_examples.

(** ** Report.cases_with_results *)

Section generic.
Context {A B : Type}.




Lemma enumerate_from_fmap_snd (l : list A) k : (enumerate_from k l).*2 = l.
Proof. revert k. induction l as [|y l IH]; intros k; simpl; by rewrite ?IH. Qed.

End generic.

Section queries.
Context `{Externals}.
Implicit Types (self : Report.t datetime) (images : list json).

Local Instance seq_le_transitive : Transitive Report.seq_le.
Proof. intros x y z. unfold Report.seq_le. lia. Qed.

Local Instance seq_le_total : Total Report.seq_le.
Proof. intros x y. unfold Report.seq_le. lia. Qed.



End queries.

Section joined.
Context `{Externals}.
Implicit Types (self : Report.t datetime) (images : list json).



End joined.

Section joined_examples.
#[local] Existing Instance Sample.env.



End joined_examples.

(** ** Badge arithmetic *)

(** *** Rounding to binary64 stays below a bound of the form [c * 2 ^ k] *)

Section rounding.

Lemma iter_pos_nat {A} (f : A → A) (n : positive) (x : A) :
  SpecFloat.iter_pos f n x = Nat.iter (Pos.to_nat n) f x.
Proof.
  revert x. induction n as [n IH|n IH|]; intros x; cbn [SpecFloat.iter_pos].
  - rewrite !IH, Pos2Nat.inj_xI.
    rewrite <-Nat.iter_succ_r, <-Nat.iter_add. f_equal. lia.
  - rewrite !IH, Pos2Nat.inj_xO, <-Nat.iter_add. f_equal. lia.
  - done.
Qed.

Lemma shr_1_spec (x : shr_record) :
  0 ≤ shr_m x →
  shr_m (shr_1 x) = shr_m x / 2
  ∧ inexact (shr_1 x) = Z.odd (shr_m x) || inexact x.
Proof.
  destruct x as [m r s]. unfold inexact. simpl. intros Hm.
  rewrite <-Z.div2_div.
  destruct m as [|[p|p|]|p]; simpl; try lia; split; try done;
    destruct r, s; done.
Qed.

Lemma shr_iter_spec (n : nat) (x : shr_record) :
  0 ≤ shr_m x →
  let y := Nat.iter n shr_1 x in
  0 ≤ shr_m y
  ∧ shr_m y = shr_m x / 2 ^ Z.of_nat n
  ∧ (inexact y = false ↔ inexact x = false ∧ shr_m x = shr_m y * 2 ^ Z.of_nat n).
Proof.
  intros Hx. induction n as [|n (Hpos & Hm & Hloc)]; simpl.
  - rewrite Z.div_1_r. split; [done|]. split; [done|]. split; [|by intros [? _]].
    intros ?. split; [done|]. lia.
  - destruct (shr_1_spec (Nat.iter n shr_1 x) Hpos) as [Hm' Hloc'].
    rewrite Hm', Hloc'.
    assert (0 < 2 ^ Z.of_nat n) as Hpow by (apply Z.pow_pos_nonneg; lia).
    assert (2 ^ Z.of_nat (S n) = 2 ^ Z.of_nat n * 2) as Hpow'.
    { rewrite Nat2Z.inj_succ, Z.pow_succ_r by lia. lia. }
    set (m := shr_m x) in *. set (my := shr_m (Nat.iter n shr_1 x)) in *.
    split; [apply Z.div_pos; lia|].
    split.
    { rewrite Hm, Hpow', Z.div_div by lia. done. }
    rewrite orb_false_iff, Hloc. rewrite Hpow'.
    assert (Z.odd my = false ↔ my = my / 2 * 2) as ->.
    { pose proof (Z.div_mod my 2 ltac:(lia)) as Hdm. rewrite Zmod_odd in Hdm.
      destruct (Z.odd my); split; intros; try done; lia. }
    split.
    + intros (Heven & Hx' & Hmy). split; [done|]. rewrite Hmy at 1. rewrite Heven at 1. lia.
    + intros (Hx' & Hmy).
      assert (my = my / 2 * 2) as Heven.
      { rewrite Hm at 1. rewrite Hmy at 1.
        replace (my / 2 * (2 ^ Z.of_nat n * 2)) with (my / 2 * 2 * 2 ^ Z.of_nat n) by lia.
        rewrite Z.div_mul by lia. done. }
      split; [done|]. split; [done|]. rewrite Hmy at 1. rewrite Heven at 2. lia.
Qed.

Lemma digits2_pos_size (p : positive) : digits2_pos p = Pos.size p.
Proof. induction p; simpl; by rewrite ?IHp. Qed.

Lemma Zdigits2_bound (m j : Z) : 0 ≤ j → 0 ≤ m < 2 ^ j → Zdigits2 m ≤ j.
Proof.
  intros Hj [Hm Hlt]. destruct m as [|p|p]; [done| |lia]. simpl.
  rewrite digits2_pos_size.
  pose proof (Pos.size_le p) as Hsize.
  apply Pos2Z.pos_le_pos in Hsize. rewrite Pos2Z.inj_pow in Hsize.
  assert (2 ^ Z.pos (Pos.size p) < 2 ^ (j + 1)) as Hpow.
  { rewrite Z.pow_add_r, Z.pow_1_r by lia. change (Z.pos p~0) with (2 * Z.pos p) in Hsize. lia. }
  apply Z.pow_lt_mono_r_iff in Hpow; lia.
Qed.

Lemma loc_exact_inexact (x : shr_record) :
  loc_of_shr_record x = loc_Exact ↔ inexact x = false.
Proof. destruct x as [m [] []]; unfold inexact; simpl; split; done. Qed.

Lemma inexact_of_loc (m : Z) (l : location) :
  inexact (shr_record_of_loc m l) = false ↔ l = loc_Exact.
Proof. destruct l as [|[]]; unfold inexact; simpl; split; done. Qed.

Lemma shr_m_of_loc (m : Z) (l : location) : shr_m (shr_record_of_loc m l) = m.
Proof. by destruct l as [|[]]. Qed.

Lemma shr_fexp_spec (m e : Z) (l : location) (y : shr_record) (e' : Z) :
  0 ≤ m →
  shr_fexp prec emax m e l = (y, e') →
  ∃ n, 0 ≤ n ∧ e' = e + n
       ∧ e' = Z.max e (fexp prec emax (Zdigits2 m + e))
       ∧ 0 ≤ shr_m y
       ∧ shr_m y = m / 2 ^ n
       ∧ (loc_of_shr_record y = loc_Exact ↔ l = loc_Exact ∧ m = shr_m y * 2 ^ n).
Proof.
  intros Hm. unfold shr_fexp, shr.
  set (d := fexp prec emax (Zdigits2 m + e) - e).
  assert (∀ n, d ≤ 0 → n = 0 →
    (shr_record_of_loc m l, e) = (y, e') →
    0 ≤ n ∧ e' = e + n ∧ e' = Z.max e (fexp prec emax (Zdigits2 m + e))
    ∧ 0 ≤ shr_m y ∧ shr_m y = m / 2 ^ n
    ∧ (loc_of_shr_record y = loc_Exact ↔ l = loc_Exact ∧ m = shr_m y * 2 ^ n)) as Hnone.
  { intros n Hd -> [= <- <-]. rewrite shr_m_of_loc, loc_exact_inexact, inexact_of_loc.
    rewrite Z.div_1_r. repeat split; try lia; tauto. }
  destruct d as [|p|p] eqn:Hd.
  - intros Heq. exists 0. apply Hnone; [lia|done|done].
  - intros [= <- <-]. exists (Z.pos p). rewrite iter_pos_nat.
    destruct (shr_iter_spec (Pos.to_nat p) (shr_record_of_loc m l))
      as (Hpos & Hval & Hloc); [by rewrite shr_m_of_loc|].
    rewrite positive_nat_Z, shr_m_of_loc in *. rewrite inexact_of_loc in Hloc.
    rewrite loc_exact_inexact.
    repeat split; try lia; try tauto.
  - intros Heq. exists 0. apply Hnone; [lia|done|done].
Qed.

Lemma loc_exact_dec (l : location) : l = loc_Exact ∨ l ≠ loc_Exact.
Proof. destruct l; [by left|by right]. Qed.

Lemma round_nearest_even_bound (m : Z) (l : location) :
  m ≤ round_nearest_even m l ≤ m + 1
  ∧ (l = loc_Exact → round_nearest_even m l = m).
Proof.
  destruct l as [|[]]; simpl; try (split; [lia|done]).
  destruct (Z.even m); split; (lia || done).
Qed.

Lemma fexp_bound (c k m e : Z) :
  0 < c < 2 ^ 53 → -1074 ≤ k → e ≤ k → 0 ≤ m ≤ c * 2 ^ (k - e) →
  fexp prec emax (Zdigits2 m + e) ≤ k.
Proof.
  intros Hc Hk He Hm. unfold fexp, emin, prec, emax.
  assert (Zdigits2 m ≤ k - e + 53); [|lia].
  apply Zdigits2_bound; [lia|].
  rewrite Z.pow_add_r by lia.
  assert (0 < 2 ^ (k - e)) by (apply Z.pow_pos_nonneg; lia). nia.
Qed.

(** Rounding does not cross [c * 2 ^ k]. *)
Lemma binary_round_aux_bound (c k mx ex : Z) (lx : location) :
  0 < c < 2 ^ 53 → -1074 ≤ k ≤ 971 →
  0 ≤ mx → ex ≤ k →
  mx ≤ c * 2 ^ (k - ex) →
  (lx ≠ loc_Exact → mx < c * 2 ^ (k - ex)) →
  match binary_round_aux prec emax false mx ex lx with
  | S754_zero s => s = false
  | S754_finite s m e => s = false ∧ e ≤ k ∧ Z.pos m ≤ c * 2 ^ (k - e)
  | _ => False
  end.
Proof.
  intros Hc Hk Hmx Hex Hle Hlt. unfold binary_round_aux.
  destruct (shr_fexp prec emax mx ex lx) as [y1 e1] eqn:H1.
  apply shr_fexp_spec in H1 as (n1 & Hn1 & He1 & He1' & Hy1 & Hm1 & Hloc1); [|done].
  assert (e1 ≤ k) as Hek1.
  { pose proof (fexp_bound c k mx ex Hc ltac:(lia) Hex ltac:(lia)). lia. }
  assert (0 < 2 ^ n1) as Hpow1 by (apply Z.pow_pos_nonneg; lia).
  assert (2 ^ (k - ex) = 2 ^ (k - e1) * 2 ^ n1) as Hsplit1.
  { rewrite <-Z.pow_add_r by lia. f_equal; lia. }
  assert (0 < 2 ^ (k - e1)) as Hpk1 by (apply Z.pow_pos_nonneg; lia).
  pose proof (Z.mul_div_le mx (2 ^ n1) Hpow1) as Hfloor1.
  rewrite <-Hm1 in Hfloor1.
  set (m1 := shr_m y1) in *.
  assert (m1 ≤ c * 2 ^ (k - e1)) as Hm1le by nia.
  assert (loc_of_shr_record y1 ≠ loc_Exact → m1 < c * 2 ^ (k - e1)) as Hm1lt.
  { intros Hinexact.
    destruct (decide (m1 < c * 2 ^ (k - e1))) as [|Hge]; [done|].
    assert (m1 = c * 2 ^ (k - e1)) as Heq by lia.
    assert (mx = m1 * 2 ^ n1) as Hexact by nia.
    destruct (loc_exact_dec lx) as [Hlx|Hlx].
    - destruct Hinexact. apply Hloc1. done.
    - specialize (Hlt Hlx). nia. }
  pose proof (round_nearest_even_bound m1 (loc_of_shr_record y1)) as [Hm2 Hm2exact].
  set (m2 := round_nearest_even m1 (loc_of_shr_record y1)) in *.
  assert (0 ≤ m2 ≤ c * 2 ^ (k - e1)) as Hm2le.
  { split; [lia|].
    destruct (loc_exact_dec (loc_of_shr_record y1)) as [Hl|Hl].
    - rewrite (Hm2exact Hl). done.
    - specialize (Hm1lt Hl). lia. }
  destruct (shr_fexp prec emax m2 e1 loc_Exact) as [y2 e2] eqn:H2.
  apply shr_fexp_spec in H2 as (n2 & Hn2 & He2 & He2' & Hy2 & Hm3 & _); [|lia].
  assert (e2 ≤ k) as Hek2.
  { pose proof (fexp_bound c k m2 e1 Hc ltac:(lia) Hek1 Hm2le). lia. }
  assert (0 < 2 ^ n2) as Hpow2 by (apply Z.pow_pos_nonneg; lia).
  assert (2 ^ (k - e1) = 2 ^ (k - e2) * 2 ^ n2) as Hsplit2.
  { rewrite <-Z.pow_add_r by lia. f_equal; lia. }
  assert (0 < 2 ^ (k - e2)) as Hpk2 by (apply Z.pow_pos_nonneg; lia).
  pose proof (Z.mul_div_le m2 (2 ^ n2) Hpow2) as Hfloor2.
  rewrite <-Hm3 in Hfloor2.
  set (m3 := shr_m y2) in *.
  assert (m3 ≤ c * 2 ^ (k - e2)) as Hm3le by nia.
  destruct m3 as [|p|p] eqn:Hm3eq; [done| |lia].
  unfold emax, prec. rewrite (proj2 (Z.leb_le e2 (1024 - 53))) by lia.
  done.
Qed.


Lemma new_location_inexact (nb_steps k : Z) :
  new_location nb_steps k ≠ loc_Exact → k ≠ 0.
Proof.
  intros Hloc ->. apply Hloc.
  unfold new_location, new_location_even, new_location_odd.
  by destruct (Z.even nb_steps).
Qed.

(** A ratio of two integers [0 ≤ a ≤ b] is a float in [0, 1]. *)
Lemma truediv_unit (a b : Z) :
  0 ≤ a ≤ b → 0 < b →
  ∃ ratio,
    truediv a b = ret ratio
    ∧ match ratio with
      | S754_zero s => s = false
      | S754_finite s m e => s = false ∧ e ≤ 0 ∧ Z.pos m ≤ 2 ^ (- e)
      | _ => False
      end.
Proof.
  intros Ha Hb. unfold truediv. rewrite decide_False by lia.
  destruct b as [|b|b]; [lia| |lia].
  destruct a as [|a|a]; [by eexists| |lia].
  cbn [exact SFdiv xorb].
  destruct (SFdiv_core_binary prec emax (Z.pos a) 0 (Z.pos b) 0)
    as [[mz ez] lz] eqn:Hcore.
  unfold SFdiv_core_binary in Hcore.
  set (e' := Z.min (fexp prec emax (Zdigits2 (Z.pos a) + 0 - (Zdigits2 (Z.pos b) + 0))) (0 - 0))
    in Hcore.
  assert (e' ≤ 0) as He' by (unfold e'; lia).
  set (m' := match 0 - 0 - e' with
             | 0 => Z.pos a
             | Z.pos _ => Z.shiftl (Z.pos a) (0 - 0 - e')
             | Z.neg _ => 0
             end) in Hcore.
  assert (m' = Z.pos a * 2 ^ (- e')) as Hm'.
  { unfold m'. destruct (0 - 0 - e') as [|s|s] eqn:Hs; [| |lia].
    - replace (- e') with 0 by lia. lia.
    - rewrite Z.shiftl_mul_pow2 by lia. f_equal. f_equal; lia. }
  pose proof (Z_div_mod m' (Z.pos b) ltac:(lia)) as Hdiv.
  destruct (Z.div_eucl m' (Z.pos b)) as [q r]. destruct Hdiv as [Hq Hr].
  injection Hcore as <- <- <-.
  assert (0 < 2 ^ (- e')) as Hpow by (apply Z.pow_pos_nonneg; lia).
  assert (0 ≤ q) as Hq0 by nia.
  pose proof (binary_round_aux_bound 1 0 q e' (new_location (Z.pos b) r)) as Hround.
  replace (0 - e') with (- e') in Hround by lia.
  specialize (Hround ltac:(lia) ltac:(lia) Hq0 He' ltac:(nia)).
  assert (new_location (Z.pos b) r ≠ loc_Exact → q < 1 * 2 ^ (- e')) as Hinexact.
  { intros Hr'%new_location_inexact. nia. }
  specialize (Hround Hinexact).
  destruct (binary_round_aux prec emax false q e' (new_location (Z.pos b) r))
    as [s|s| |s m e] eqn:Hresult; [|done|done|].
  - by eexists.
  - eexists. split; [done|].
    destruct Hround as (-> & He & Hm). rewrite Z.mul_1_l, Z.sub_0_l in Hm. done.
Qed.

Lemma float_100 : float 100 = S754_finite false 7036874417766400 (-46).
Proof. reflexivity. Qed.

(** The percentage of [0 ≤ passed ≤ total] is shown as an integer of
    [0 .. 100]. *)
Lemma percentage_range (passed total : Z) :
  0 ≤ passed ≤ total → 0 < total →
  ∃ pct shown,
    Report.percentage passed total = ret pct
    ∧ int pct = ret shown
    ∧ 0 ≤ shown ≤ 100.
Proof.
  intros Hpassed Htotal. unfold Report.percentage.
  destruct (truediv_unit passed total Hpassed Htotal) as (ratio & -> & Hratio).
  cbv beta iota delta [bind ret]. rewrite float_100.
  destruct ratio as [s|s| |s m e]; [|done|done|].
  - subst s. eexists _, 0. split; [done|]. split; [done|lia].
  - destruct Hratio as (-> & He & Hm). cbn [SFmul xorb].
    assert (0 < 2 ^ (- e)) as Hpow by (apply Z.pow_pos_nonneg; lia).
    pose proof (binary_round_aux_bound 25 2
                  (Z.pos (m * 7036874417766400)) (e + -46) loc_Exact) as Hround.
    assert (2 ^ (2 - (e + -46)) = 2 ^ 48 * 2 ^ (- e)) as Hsplit.
    { rewrite <-Z.pow_add_r by lia. f_equal; lia. }
    rewrite Hsplit, Pos2Z.inj_mul in Hround. change (2 ^ 48) with 281474976710656 in Hround.
    specialize (Hround ltac:(lia) ltac:(lia) ltac:(lia) ltac:(lia) ltac:(nia) ltac:(done)).
    change (Z.pos m * 7036874417766400) with (Z.pos (m * 7036874417766400)) in Hround.
    destruct (binary_round_aux prec emax false (Z.pos (m * 7036874417766400))
                (e + -46) loc_Exact) as [s'|s'| |s' m' e'] eqn:Hresult; [|done|done|].
    + eexists _, 0. split; [reflexivity|]. split; [reflexivity|lia].
    + destruct Hround as (-> & He' & Hm').
      eexists _, _. split; [reflexivity|]. split; [reflexivity|].
      assert (0 < 2 ^ (2 - e')) as Hpow' by (apply Z.pow_pos_nonneg; lia).
      destruct (decide (0 ≤ e')) as [Hnonneg|Hneg].
      * rewrite Z.shiftl_mul_pow2 by done.
        assert (2 ^ (2 - e') * 2 ^ e' = 4) as Hfour.
        { rewrite <-Z.pow_add_r by lia. by replace (2 - e' + e') with 2 by lia. }
        assert (0 < 2 ^ e') by (apply Z.pow_pos_nonneg; lia). nia.
      * rewrite Z.shiftl_div_pow2 by lia.
        assert (0 < 2 ^ (- e')) as Hpow'' by (apply Z.pow_pos_nonneg; lia).
        assert (2 ^ (2 - e') = 4 * 2 ^ (- e')) as Hsplit'.
        { change 4 with (2 ^ 2). rewrite <-Z.pow_add_r by lia. f_equal; lia. }
        split; [apply Z.div_pos; lia|].
        apply Z.div_le_upper_bound; [done|]. nia.
Qed.

Lemma format_02x_two_digits (n : Z) :
  0 ≤ n ≤ 255 → String.length (format_02x n) = 2%nat.
Proof.
  intros Hn.
  assert (Forall (λ n, String.length (format_02x n) = 2%nat) (seqZ 0 256)) as Hall.
  { apply (bool_decide_unpack _). vm_compute. exact I. }
  eapply Forall_forall in Hall; [done|]. apply elem_of_seqZ. lia.
Qed.

End rounding.

(** *** The badge of one implementation *)

Section badge.
Context `{Externals}.
Implicit Types (self : Report.t datetime) (impl : json) (counts : Count.t).

(** What the body of the loop writes once the descriptor has been read and
    the percentage computed. *)
Lemma badges_of_written self label total impl dialect_versions shortnames
    name lang image counts pct shown :
  Report.dialect_versions impl = ret dialect_versions →
  Report.dialect self ∈ dialect_versions →
  traverse shortname_getitem (reverse dialect_versions) = ret shortnames →
  getitem impl "name" = ret name →
  getitem impl "language" = ret lang →
  getitem impl "image" = ret image →
  Report.counts_getitem self image = ret counts →
  Report.percentage (Report.passed_tests total counts) total = ret pct →
  int pct = ret shown →
  Report.badges_of self label total impl
  = ret [ mkdir [str lang +:+ "-" +:+ str name; "compliance"];
          write_text
            [str lang +:+ "-" +:+ str name; "compliance";
             replace " " "_" label +:+ ".json"]
            (JObject [
               ("schemaVersion", JInt 1);
               ("label", JStr label);
               ("message", JStr (pretty shown +:+ "% Passing"));
               ("color", JStr (Report.color (100 - shown, shown, 0))) ]);
          write_text [str lang +:+ "-" +:+ str name; "supported_versions.json"]
            (JObject [
               ("schemaVersion", JInt 1);
               ("label", JStr "JSON Schema Versions");
               ("message", JStr (join ", " (removeprefix "Draft " <$> shortnames)));
               ("color", JStr "lightgreen") ]) ].
Proof.
  intros Hversions Hdeclared Hshortnames Hname Hlang Himage Hcounts Hpct Hshown.
  unfold Report.badges_of. rewrite Hversions, bind_ret_l.
  rewrite decide_False by (by intros ?).
  rewrite Hshortnames, bind_ret_l. cbv zeta.
  rewrite Hname, bind_ret_l, Hlang, bind_ret_l, Himage, bind_ret_l.
  rewrite Hcounts, bind_ret_l, Hpct, bind_ret_l.
  unfold Report.color_bytes. by rewrite Hshown, !bind_ret_l.
Qed.

(** C7, as the code has it. With [0 < total_tests] and counts that are not
    negative and do not exceed [total_tests]:
    [passed = total_tests − (failed + errored + skipped)];
    [pct = (passed / total_tests) * 100] in binary64 arithmetic, and
    [int(pct)], its truncation, lies in [0 .. 100]; the colour bytes are
    green [= int(pct)], red [= 100 − int(pct)] and blue [= 0]; each is
    rendered as two hexadecimal digits; and these are the message and the
    colour of the badge written for the implementation. In particular
    [total_tests = 10], [failed = 1], [errored = 0], [skipped = 1] give
    [passed = 8], [int(pct) = 80], the bytes [(20, 80, 0)] and the colour
    ["145000"]. *)
Theorem badge_arithmetic :
  (∀ total counts,
     0 < total →
     0 ≤ Count.failed_tests counts →
     0 ≤ Count.errored_tests counts →
     0 ≤ Count.skipped_tests counts →
     Count.unsuccessful_tests counts ≤ total →
     ∃ pct shown,
       Report.passed_tests total counts = total - Count.unsuccessful_tests counts
       ∧ Report.percentage (Report.passed_tests total counts) total = ret pct
       ∧ int pct = ret shown
       ∧ 0 ≤ shown ≤ 100
       ∧ Report.color_bytes pct = ret (100 - shown, shown, 0)
       ∧ Report.color (100 - shown, shown, 0)
         = format_02x (100 - shown) +:+ format_02x shown +:+ "00"
       ∧ String.length (format_02x (100 - shown)) = 2%nat
       ∧ String.length (format_02x shown) = 2%nat
       ∧ ∀ self label impl dialect_versions shortnames name lang image,
           Report.dialect_versions impl = ret dialect_versions →
           Report.dialect self ∈ dialect_versions →
           traverse shortname_getitem (reverse dialect_versions) = ret shortnames →
           getitem impl "name" = ret name →
           getitem impl "language" = ret lang →
           getitem impl "image" = ret image →
           Report.counts_getitem self image = ret counts →
           Report.badges_of self label total impl
           = ret [ mkdir [str lang +:+ "-" +:+ str name; "compliance"];
                   write_text
                     [str lang +:+ "-" +:+ str name; "compliance";
                      replace " " "_" label +:+ ".json"]
                     (JObject [
                        ("schemaVersion", JInt 1);
                        ("label", JStr label);
                        ("message", JStr (pretty shown +:+ "% Passing"));
                        ("color", JStr (Report.color (100 - shown, shown, 0))) ]);
                   write_text
                     [str lang +:+ "-" +:+ str name; "supported_versions.json"]
                     (JObject [
                        ("schemaVersion", JInt 1);
                        ("label", JStr "JSON Schema Versions");
                        ("message",
                         JStr (join ", " (removeprefix "Draft " <$> shortnames)));
                        ("color", JStr "lightgreen") ]) ])
  ∧ (Report.passed_tests 10 (Count.mk 1 0 1) = 8
     ∧ ∃ pct,
         Report.percentage 8 10 = ret pct
         ∧ int pct = ret 80
         ∧ Report.color_bytes pct = ret (20, 80, 0)
         ∧ Report.color (20, 80, 0) = "145000").
Proof.
  split.
  - intros total counts Htotal Hfailed Herrored Hskipped Hunsuccessful.
    assert (Report.passed_tests total counts = total - Count.unsuccessful_tests counts)
      as Hpassed.
    { unfold Report.passed_tests, Count.unsuccessful_tests. lia. }
    destruct (percentage_range (Report.passed_tests total counts) total)
      as (pct & shown & Hpct & Hshown & Hrange); [|done|].
    { rewrite Hpassed. unfold Count.unsuccessful_tests in *. lia. }
    exists pct, shown.
    split; [done|]. split; [done|]. split; [done|]. split; [done|].
    split; [unfold Report.color_bytes; by rewrite Hshown|].
    split; [done|].
    split; [apply format_02x_two_digits; lia|].
    split; [apply format_02x_two_digits; lia|].
    intros. by eapply badges_of_written.
  - split; [reflexivity|]. eexists.
    split; [vm_compute; reflexivity|]. by vm_compute.
Qed.

End badge.

Section badge_examples.
#[local] Existing Instance Sample.env.

(** Ten tests, of which the implementation failed one and skipped one: the
    badge reads 80% and its colour is ["145000"]. *)
Lemma badge_arithmetic_example :
  (∃ report,
     Report.from_input
       (Sample.one_case 10
          (replicate 8 Sample.right ++ [Sample.wrong; Sample.skipped])) = ret report
     ∧ Report.total_tests report = 10
     ∧ Summary.by_implementation (Report.summary report) !! "impl"
       = Some (Count.mk 1 0 1)
     ∧ Report.generate_badges report = (Sample.badges "80% Passing" "145000", None))
  ∧ ∃ pct shown,
      Report.passed_tests 10 (Count.mk 1 0 1)
      = 10 - Count.unsuccessful_tests (Count.mk 1 0 1)
      ∧ Report.percentage (Report.passed_tests 10 (Count.mk 1 0 1)) 10 = ret pct
      ∧ int pct = ret shown
      ∧ 0 ≤ shown ≤ 100
      ∧ Report.color_bytes pct = ret (100 - shown, shown, 0)
      ∧ String.length (format_02x (100 - shown)) = 2%nat
      ∧ String.length (format_02x shown) = 2%nat.
Proof.
  split.
  - eexists. split; [vm_compute; reflexivity|].
    repeat split; vm_compute; reflexivity.
  - destruct (proj1 (@badge_arithmetic Sample.env) 10 (Count.mk 1 0 1))
      as (pct & shown & H1 & H2 & H3 & H4 & H5 & _ & H6 & H7 & _);
      [by vm_compute..|].
    by exists pct, shown.
Defined.

(** Where the bytes are not what C7 says. With three tests of which one
    failed, [pct] is 66.67: the code's red byte is [100 − 66 = 34], not the
    truncation 33 of [100 − pct], and the badge is written with the colour
    ["224200"]. With one test and a result that fails two, [passed] is
    [-1]: the bytes are [(200, -100, 0)] and the colour ["c8-6400"] is not
    made of three two-digit bytes. *)
Lemma color_bytes_from_truncated_percentage :
  (∃ report pct,
     Report.from_input
       (Sample.one_case 3 [Sample.right; Sample.right; Sample.wrong]) = ret report
     ∧ Report.total_tests report = 3
     ∧ Summary.by_implementation (Report.summary report) !! "impl"
       = Some (Count.mk 1 0 0)
     ∧ Report.percentage (Report.passed_tests 3 (Count.mk 1 0 0)) 3 = ret pct
     ∧ Report.color_bytes pct = ret (34, 66, 0)
     ∧ spec_color_bytes pct = ret (33, 66, 0)
     ∧ Report.generate_badges report = (Sample.badges "66% Passing" "224200", None))
  ∧ (∃ report pct,
       Report.from_input (Sample.one_case 1 [Sample.wrong; Sample.wrong]) = ret report
       ∧ Report.total_tests report = 1
       ∧ Summary.by_implementation (Report.summary report) !! "impl"
         = Some (Count.mk 2 0 0)
       ∧ Report.percentage (Report.passed_tests 1 (Count.mk 2 0 0)) 1 = ret pct
       ∧ Report.color_bytes pct = ret (200, -100, 0)
       ∧ Report.generate_badges report
         = (Sample.badges "-100% Passing" "c8-6400", None)).
Proof.
  split.
  - eexists _, _. split; [vm_compute; reflexivity|].
    split; [vm_compute; reflexivity|]. split; [vm_compute; reflexivity|].
    split; [vm_compute; reflexivity|].
    repeat split; vm_compute; reflexivity.
  - eexists _, _. split; [vm_compute; reflexivity|].
    split; [vm_compute; reflexivity|]. split; [vm_compute; reflexivity|].
    split; [vm_compute; reflexivity|].
    repeat split; vm_compute; reflexivity.
Qed.

End badge_examples.

(** ** A registered case that nobody answered *)

Section unanswered.
Context `{Externals}.
Implicit Types (self : Report.t datetime).

Lemma generator_raises {A B} (f : A → except B) (l : list A) (x : A) :
  x ∈ l → raises (f x) → is_Some (generator f l).2.
Proof.
  intros Hin Hraises. induction l as [|y l IH]; [by apply elem_of_nil in Hin|].
  simpl. destruct (f y) as [e|b] eqn:Hy; [by eexists|].
  apply elem_of_cons in Hin as [->|Hin].
  - destruct Hraises as [e He]. by rewrite Hy in He.
  - destruct (generator f l) as [ys e]. by apply IH.
Qed.

(** [self.summary[seq]] raises [KeyError] for a registered case without any
    result, so the iteration of [cases_with_results] over such a report ends
    with an exception, at that case or before it. *)
Theorem cases_with_results_unanswered self seq case :
  Report._cases self !! seq = Some case →
  Summary._results (Report.summary self) !! seq = None →
  Report.case_with_results self (seq, case) = raise KeyError
  ∧ is_Some (Report.cases_with_results self).2.
Proof.
  intros Hcase Hnone.
  assert (Report.case_with_results self (seq, case) = raise KeyError) as Hraise.
  { unfold Report.case_with_results, Summary.getitem. by rewrite Hnone. }
  split; [done|].
  apply (generator_raises _ _ (seq, case)); [|by eexists].
  unfold Report.sorted. rewrite merge_sort_Permutation.
  by apply elem_of_map_to_list.
Qed.

End unanswered.

Section unanswered_examples.
#[local] Existing Instance Sample.env.

(** A run whose only case got no response: nothing is yielded. *)
Lemma cases_with_results_unanswered_example :
  ∃ report case,
    Report.from_input
      [ Sample.header Sample.draft7 [Sample.descriptor "impl" [Sample.draft7]];
        Sample.case_record 1 "one" 1 ] = ret report
    ∧ Report.case_with_results report (1, case) = raise KeyError
    ∧ is_Some (Report.cases_with_results report).2.
Proof.
  eexists _, _. split; [vm_compute; reflexivity|].
  apply (@cases_with_results_unanswered Sample.env); vm_compute; reflexivity.
Defined.

End unanswered_examples.

(** ** Invariants of a summary *)

Section summary_invariant.
Implicit Types (self : Summary.t) (result : AnyCaseResult) (l : list AnyCaseResult).

Lemma bind_inr {A B} (m : except A) (k : A → except B) (b : B) :
  bind m k = inr b → ∃ a, m = inr a ∧ k a = inr b.
Proof. destruct m as [e|a]; [done|]. intros Hk. by exists a. Qed.

(** [with_result] returns only for a pair that is not stored, and then the
    summary with the two insertions. *)
Lemma with_result_ret self result self' :
  Summary.with_result self result = ret self' →
  Summary.result_of self (seq result) (implementation result) = None
  ∧ self' = Summary.mk
      (<[seq result :=
           <[implementation result := result]>
             (default ∅ (Summary._results self !! seq result))]>
         (Summary._results self))
      (<[implementation result :=
           be_counted result
             (default Count.new
                (Summary.by_implementation self !! implementation result))]>
         (Summary.by_implementation self)).
Proof.
  unfold Summary.with_result, Summary.result_of.
  destruct (decide _) as [|Hfresh]; [done|]. intros [= <-].
  split; [|done]. by apply eq_None_not_Some.
Qed.

Lemma stored_elem_of self i result :
  result ∈ stored self i ↔ ∃ seq, Summary.result_of self seq i = Some result.
Proof.
  unfold stored, Summary.result_of. rewrite list_elem_of_omap. split.
  - intros (m & ([seq m'] & -> & Hm%elem_of_map_to_list)%list_elem_of_fmap & Hi).
    exists seq. simpl in *. by rewrite Hm.
  - intros (seq & Hseq).
    destruct (Summary._results self !! seq) as [m|] eqn:Hm; [|done].
    exists m. split; [|done]. apply list_elem_of_fmap. exists (seq, m).
    split; [done|]. by apply elem_of_map_to_list.
Qed.

Lemma stored_nil self i :
  stored self i = [] → ∀ seq, Summary.result_of self seq i = None.
Proof.
  intros Hnil seq.
  destruct (Summary.result_of self seq i) as [result|] eqn:Hseq; [|done].
  assert (result ∈ stored self i) as Hin by (apply stored_elem_of; eauto).
  rewrite Hnil in Hin. by apply elem_of_nil in Hin.
Qed.

(** A result stored under a new pair joins the results of its
    implementation, and of no other. *)
Lemma stored_insert self s i result counts j :
  Summary.result_of self s i = None →
  stored
    (Summary.mk
       (<[s := <[i := result]> (default ∅ (Summary._results self !! s))]>
          (Summary._results self))
       counts) j
  ≡ₚ if decide (i = j) then result :: stored self j else stored self j.
Proof.
  unfold Summary.result_of, stored; simpl. intros Hfresh.
  destruct (Summary._results self !! s) as [m|] eqn:Hm; simpl in *.
  - rewrite <-(insert_delete_eq (Summary._results self)).
    pose proof (fin_maps.map_to_list_delete (Summary._results self) s m Hm) as Hperm.
    rewrite map_to_list_insert by apply lookup_delete_eq.
    destruct (decide (i = j)) as [<-|Hij].
    + rewrite <-Hperm. rewrite !fmap_cons; simpl.
      by rewrite lookup_insert_eq, Hfresh.
    + rewrite <-Hperm. rewrite !fmap_cons; simpl.
      by rewrite lookup_insert_ne by done.
  - rewrite map_to_list_insert by done. rewrite fmap_cons; simpl.
    destruct (decide (i = j)) as [<-|Hij].
    + by rewrite lookup_insert_eq.
    + rewrite lookup_insert_ne by done. by rewrite lookup_empty.
Qed.

Lemma consistent_new : consistent Summary.new.
Proof.
  split.
  - intros s i r. unfold Summary.result_of; simpl. by rewrite lookup_empty.
  - intros i. simpl. rewrite lookup_empty. unfold stored; simpl.
    by rewrite map_to_list_empty.
Qed.

Lemma with_result_consistent self result self' :
  consistent self →
  Summary.with_result self result = ret self' →
  consistent self'.
Proof.
  intros [Hkeys Hcounts] [Hfresh ->]%with_result_ret. split.
  - intros s i r. rewrite result_of_insert.
    destruct (decide _) as [[<- <-]|_]; [by intros [= <-]|apply Hkeys].
  - intros i. pose proof (stored_insert self (seq result) (implementation result)
      result
      (<[implementation result :=
           be_counted result
             (default Count.new
                (Summary.by_implementation self !! implementation result))]>
         (Summary.by_implementation self)) i Hfresh) as Hstored.
    simpl. destruct (decide (implementation result = i)) as [<-|Hi].
    + rewrite lookup_insert_eq. split.
      * intros Hnil. rewrite Hnil in Hstored. by apply Permutation_nil_cons in Hstored.
      * specialize (Hcounts (implementation result)).
        destruct (Summary.by_implementation self !! implementation result)
          as [count|]; simpl.
        -- destruct Hcounts as (_ & l & Hl & ->).
           exists (l ++ [result]). split.
           ++ rewrite Hstored, <-Hl. by rewrite <-Permutation_cons_append.
           ++ unfold counted. by rewrite fold_left_app.
        -- exists [result]. split; [|done]. by rewrite Hstored, Hcounts.
    + rewrite lookup_insert_ne by done. specialize (Hcounts i).
      destruct (Summary.by_implementation self !! i) as [count|].
      * destruct Hcounts as (Hne & l & Hl & ->). split.
        -- intros Hnil. rewrite Hnil in Hstored.
           by apply Permutation_nil in Hstored.
        -- exists l. split; [|done]. by rewrite Hstored.
      * rewrite Hcounts in Hstored. by apply Permutation_nil_r in Hstored.
Qed.

(** In a consistent summary an implementation is without a count exactly
    when no result of it is stored. *)
Lemma consistent_no_count self i :
  consistent self →
  (Summary.by_implementation self !! i = None
   ↔ ∀ seq, Summary.result_of self seq i = None).
Proof.
  intros [_ Hcounts]. specialize (Hcounts i).
  destruct (Summary.by_implementation self !! i) as [count|].
  - destruct Hcounts as [Hne _]. split; [done|]. intros Hnone. exfalso.
    destruct (stored self i) as [|result l] eqn:Hstored; [done|].
    assert (result ∈ stored self i) as Hin by (rewrite Hstored; left).
    apply stored_elem_of in Hin as [seq Hseq]. by rewrite Hnone in Hseq.
  - split; [|done]. intros _. by apply stored_nil.
Qed.

(** What a fold of [with_result] over [l] that returns has done: the pairs
    of [l] are pairwise distinct and none was stored; the new summary holds
    what was stored and the results of [l]; each implementation's count has
    been given its results of [l], in the order of [l]. *)
Lemma with_results_ret l : ∀ self self',
  Summary.with_results self l = ret self' →
  NoDup (key <$> l)
  ∧ (∀ result, result ∈ l →
       Summary.result_of self (seq result) (implementation result) = None)
  ∧ (∀ s i result,
       Summary.result_of self' s i = Some result
       ↔ Summary.result_of self s i = Some result
         ∨ (result ∈ l ∧ key result = (s, i)))
  ∧ (∀ i,
       Summary.by_implementation self' !! i
       = match filter (λ result, implementation result = i) l with
         | [] => Summary.by_implementation self !! i
         | answered =>
             Some (counted answered
                     (default Count.new (Summary.by_implementation self !! i)))
         end).
Proof.
  induction l as [|result l IH]; intros self self'; simpl.
  - intros [= <-]. split; [constructor|]. split.
    { intros result Hin. by apply elem_of_nil in Hin. }
    split; [|done]. intros s i result. split; [by left|].
    intros [?|[Hin _]]; [done|]. by apply elem_of_nil in Hin.
  - intros (self1 & [Hfresh ->]%with_result_ret & Hrest)%bind_inr.
    apply IH in Hrest as (Hnodup & Hnew & Hresults & Hcounts).
    assert (Hnotin : key result ∉ key <$> l).
    { intros (result' & Hkey & Hin)%list_elem_of_fmap.
      specialize (Hnew result' Hin). rewrite result_of_insert in Hnew.
      injection Hkey as Hs Hi. rewrite decide_True in Hnew; done. }
    split; [by constructor|]. split; [|split].
    + intros result' [->|Hin]%elem_of_cons; [done|].
      specialize (Hnew result' Hin). rewrite result_of_insert in Hnew.
      by destruct (decide _).
    + intros s i result'. rewrite Hresults, result_of_insert.
      destruct (decide _) as [[<- <-]|Hne].
      * split.
        -- intros [[= <-]|[Hin Hkey]]; [right; split; [by left|done]|].
           exfalso. apply Hnotin. apply list_elem_of_fmap. by exists result'.
        -- intros [Hstored|[[->|Hin]%elem_of_cons Hkey]]; [congruence|by left|].
           exfalso. apply Hnotin. apply list_elem_of_fmap. by exists result'.
      * split.
        -- intros [?|[Hin Hkey]]; [by left|]. right. split; [by right|done].
        -- intros [?|[[->|Hin]%elem_of_cons Hkey]]; [by left| |by right].
           exfalso. apply Hne. by injection Hkey.
    + intros i. rewrite Hcounts. simpl. rewrite filter_cons.
      destruct (decide (implementation result = i)) as [<-|Hi].
      * rewrite lookup_insert_eq. simpl.
        by destruct (filter _ l).
      * by rewrite lookup_insert_ne.
Qed.

Lemma with_results_accepted l : ∀ self,
  NoDup (key <$> l) →
  (∀ result, result ∈ l →
     Summary.result_of self (seq result) (implementation result) = None) →
  ∃ self', Summary.with_results self l = ret self'.
Proof.
  induction l as [|result l IH]; intros self Hnodup Hnew; simpl.
  - by exists self.
  - rewrite fmap_cons in Hnodup. apply NoDup_cons in Hnodup as [Hnotin Hnodup].
    rewrite (with_result_fresh self result) by (apply Hnew; by left). simpl.
    apply IH; [done|]. intros result' Hin. rewrite result_of_insert.
    rewrite decide_False; [apply Hnew; by right|].
    intros [Hs Hi]. apply Hnotin. apply list_elem_of_fmap. exists result'.
    split; [|done]. unfold key. by rewrite Hs, Hi.
Qed.

(** Results folded by [with_result] into the empty summary are all accepted
    exactly when their pairs [(seq, implementation)] are pairwise distinct:
    the fold raises for a list with a repeated pair, and for no other. *)
Theorem with_results_distinct l :
  (∃ self, Summary.with_results Summary.new l = ret self) ↔ NoDup (key <$> l).
Proof.
  split.
  - intros [self Hself]. by apply with_results_ret in Hself as [? _].
  - intros Hnodup. apply with_results_accepted; [done|].
    intros result _. unfold Summary.result_of; simpl. by rewrite lookup_empty.
Qed.

(** The summary that [with_result] builds from the empty one out of the
    results [l] holds exactly the results of [l], each under its own pair,
    and gives a count to exactly the implementations that have a result in
    [l]: what [be_counted] makes of [Count()] over that implementation's
    results, in their order of arrival. *)
Theorem with_results_summary l self :
  Summary.with_results Summary.new l = ret self →
  (∀ s i result,
     Summary.result_of self s i = Some result ↔ result ∈ l ∧ key result = (s, i))
  ∧ (∀ i,
       Summary.by_implementation self !! i
       = match filter (λ result, implementation result = i) l with
         | [] => None
         | answered => Some (counted answered Count.new)
         end).
Proof.
  intros (_ & _ & Hresults & Hcounts)%with_results_ret. split.
  - intros s i result. rewrite Hresults. unfold Summary.result_of at 1; simpl.
    rewrite lookup_empty. simpl. rewrite lookup_empty. split; [|by right].
    by intros [?|?].
  - intros i. rewrite Hcounts. simpl. by rewrite lookup_empty.
Qed.

End summary_invariant.

(** Two results of ["impl"], for the cases 1 and 2: one failure and one
    skip are counted. *)
Lemma with_results_summary_example :
  ∃ self,
    Summary.with_results Summary.new
      [ Result (mkCaseResult "impl" 1 [TestPassed; TestFailed]);
        Skipped (mkCaseSkipped "impl" 2 JNull) ] = ret self
    ∧ Summary.by_implementation self !! "impl" = Some (Count.mk 1 0 1).
Proof.
  eexists. split; [vm_compute; reflexivity|].
  match goal with |- Summary.by_implementation ?self !! _ = _ =>
    rewrite (proj2 (with_results_summary
      [ Result (mkCaseResult "impl" 1 [TestPassed; TestFailed]);
        Skipped (mkCaseSkipped "impl" 2 JNull) ] self eq_refl) "impl")
  end.
  reflexivity.
Defined.

(** ** The loop of from_input, turn by turn *)

Section turns.
Context `{Externals}.
Implicit Types (md : RunMetadata.t datetime) (cases : gmap Seq TestCase)
  (summary : Summary.t) (data header : record).

(** The patterns after the first one. *)
Lemma dispatch_rest_next cases summary data cases' summary' :
  (if decide (is_Some (data !! "caught")) then
     let* error := CaseErrored_new data in
     let* summary := Summary.with_result summary (Errored error) in
     ret (Report.Next cases summary)
   else
     match data !! "skipped" with
     | Some (JBool true) =>
         let* skip := CaseSkipped_new (delete "skipped" data) in
         let* summary := Summary.with_result summary (Skipped skip) in
         ret (Report.Next cases summary)
     | _ =>
         match data !! "did_fail_fast" with
         | Some did_fail_fast => ret (Report.Break did_fail_fast)
         | None =>
             let* result := CaseResult_from_dict data in
             let* summary := Summary.with_result summary (Result result) in
             ret (Report.Next cases summary)
         end
     end) = ret (Report.Next cases' summary') →
  cases' = cases
  ∧ ∃ result, decoded data result ∧ Summary.with_result summary result = ret summary'.
Proof.
  destruct (decide _) as [Hcaught|Hcaught].
  - intros (e & He & (s & Hs & [= <- <-])%bind_inr)%bind_inr.
    split; [done|]. exists (Errored e). split; [|done]. left. eauto.
  - apply eq_None_not_Some in Hcaught.
    assert (Hresult :
      data !! "skipped" ≠ Some (JBool true) →
      (match data !! "did_fail_fast" with
       | Some did_fail_fast => ret (Report.Break did_fail_fast)
       | None =>
           let* result := CaseResult_from_dict data in
           let* summary := Summary.with_result summary (Result result) in
           ret (Report.Next cases summary)
       end) = ret (Report.Next cases' summary') →
      cases' = cases
      ∧ ∃ result, decoded data result
                  ∧ Summary.with_result summary result = ret summary').
    { intros Hskipped. destruct (data !! "did_fail_fast") eqn:Hflag; [done|].
      intros (r & Hr & (s & Hs & [= <- <-])%bind_inr)%bind_inr.
      split; [done|]. exists (Result r). split; [|done]. right; right. eauto 6. }
    destruct (data !! "skipped") as [[| [] | | | | |]|] eqn:Hskipped;
      try (by apply Hresult).
    intros (k & Hk & (s & Hs & [= <- <-])%bind_inr)%bind_inr.
    split; [done|]. exists (Skipped k). split; [|done]. right; left. eauto.
Qed.

(** A record that [from_input] decodes to [result] has [with_result] called
    with it. *)
Lemma dispatch_decodes md cases summary data result :
  decodes data result →
  Report.dispatch md cases summary data
  = let* summary := Summary.with_result summary result in
    ret (Report.Next cases summary).
Proof.
  intros [Hcase Hdecoded]. unfold Report.dispatch.
  assert (Hrest :
    (if decide (is_Some (data !! "caught")) then
       let* error := CaseErrored_new data in
       let* summary := Summary.with_result summary (Errored error) in
       ret (Report.Next cases summary)
     else
       match data !! "skipped" with
       | Some (JBool true) =>
           let* skip := CaseSkipped_new (delete "skipped" data) in
           let* summary := Summary.with_result summary (Skipped skip) in
           ret (Report.Next cases summary)
       | _ =>
           match data !! "did_fail_fast" with
           | Some did_fail_fast => ret (Report.Break did_fail_fast)
           | None =>
               let* result := CaseResult_from_dict data in
               let* summary := Summary.with_result summary (Result result) in
               ret (Report.Next cases summary)
           end
       end)
    = let* summary := Summary.with_result summary result in
      ret (Report.Next cases summary)).
  { destruct Hdecoded
      as [(Hcaught & e & He & ->)
         |[(Hcaught & Hskipped & k & Hk & ->)
          |(Hcaught & Hskipped & Hflag & r & Hr & ->)]].
    - rewrite decide_True by done. by rewrite He.
    - rewrite decide_False by (rewrite Hcaught; by intros [? [=]]).
      rewrite Hskipped. by rewrite Hk.
    - rewrite decide_False by (rewrite Hcaught; by intros [? [=]]).
      rewrite Hflag, Hr.
      by destruct (data !! "skipped") as [[| [] | | | | |]|]. }
  destruct Hcase as [-> | ->]; [done|].
  by destruct (data !! "seq" ≫= as_Seq).
Qed.

(** What a turn that goes on has done: registered a case under a new
    [seq], or stored one decoded result. *)
Lemma dispatch_next md cases summary data cases' summary' :
  Report.dispatch md cases summary data = ret (Report.Next cases' summary') →
  (∃ seq case,
     registers md data seq case ∧ cases !! seq = None
     ∧ cases' = <[seq := case]> cases ∧ summary' = summary)
  ∨ (cases' = cases
     ∧ ∃ result, decodes data result ∧ Summary.with_result summary result = ret summary').
Proof.
  unfold Report.dispatch.
  destruct (data !! "seq" ≫= as_Seq) as [seq|] eqn:Hseq;
    [destruct (data !! "case") as [case|] eqn:Hcase|].
  - destruct (decide _) as [|Hnew]; [done|].
    destruct case as [| | | | | |members]; try done.
    intros (case & Hcase' & [= <- <-])%bind_inr. left. exists seq, case.
    split; [|split; [by apply eq_None_not_Some|done]].
    split; [done|]. by exists members.
  - intros (-> & result & Hdecoded & Hstored)%dispatch_rest_next.
    right. split; [done|]. exists result. split; [|done]. split; [by right|done].
  - intros (-> & result & Hdecoded & Hstored)%dispatch_rest_next.
    right. split; [done|]. exists result. split; [|done]. split; [by left|done].
Qed.

Lemma dispatch_rest_break cases summary data flag :
  (if decide (is_Some (data !! "caught")) then
     let* error := CaseErrored_new data in
     let* summary := Summary.with_result summary (Errored error) in
     ret (Report.Next cases summary)
   else
     match data !! "skipped" with
     | Some (JBool true) =>
         let* skip := CaseSkipped_new (delete "skipped" data) in
         let* summary := Summary.with_result summary (Skipped skip) in
         ret (Report.Next cases summary)
     | _ =>
         match data !! "did_fail_fast" with
         | Some did_fail_fast => ret (Report.Break did_fail_fast)
         | None =>
             let* result := CaseResult_from_dict data in
             let* summary := Summary.with_result summary (Result result) in
             ret (Report.Next cases summary)
         end
     end) = ret (Report.Break flag) →
  data !! "did_fail_fast" = Some flag ∧ data !! "caught" = None
  ∧ data !! "skipped" ≠ Some (JBool true).
Proof.
  assert (Hresult :
    (match data !! "did_fail_fast" with
     | Some did_fail_fast => ret (Report.Break did_fail_fast)
     | None =>
         let* result := CaseResult_from_dict data in
         let* summary := Summary.with_result summary (Result result) in
         ret (Report.Next cases summary)
     end) = ret (Report.Break flag) →
    data !! "did_fail_fast" = Some flag).
  { destruct (data !! "did_fail_fast"); [by intros [= ->]|].
    by intros (r & Hr & (s & Hs & [=])%bind_inr)%bind_inr. }
  destruct (decide _) as [_|Hcaught].
  - by intros (e & He & (s & Hs & [=])%bind_inr)%bind_inr.
  - apply eq_None_not_Some in Hcaught.
    destruct (data !! "skipped") as [[| [] | | | | |]|];
      try (intros Hrest; by apply Hresult in Hrest).
    by intros (k & Hk & (s & Hs & [=])%bind_inr)%bind_inr.
Qed.

(** The loop is left only by a record that holds the flag and that none of
    the three patterns before that one matches. *)
Lemma dispatch_break_inv md cases summary data flag :
  Report.dispatch md cases summary data = ret (Report.Break flag) →
  data !! "did_fail_fast" = Some flag
  ∧ (data !! "seq" ≫= as_Seq = None ∨ data !! "case" = None)
  ∧ data !! "caught" = None
  ∧ data !! "skipped" ≠ Some (JBool true).
Proof.
  unfold Report.dispatch.
  destruct (data !! "seq" ≫= as_Seq) as [seq|] eqn:Hseq;
    [destruct (data !! "case") as [case|] eqn:Hcase|].
  - destruct (decide _) as [|Hnew]; [done|].
    destruct case as [| | | | | |members]; try done.
    by intros (case & Hcase' & [=])%bind_inr.
  - intros Hrest.
    destruct (dispatch_rest_break _ _ _ _ Hrest) as (? & ? & ?). eauto.
  - intros Hrest.
    destruct (dispatch_rest_break _ _ _ _ Hrest) as (? & ? & ?). eauto.
Qed.

(** A property of the two variables of the loop that holds when the loop
    starts, and that registering a case and storing a result keep, holds
    when the loop is left. *)
Lemma consume_invariant md (P : gmap Seq TestCase → Summary.t → Prop)
    (input : list record) :
  (∀ cases summary data seq case,
     data ∈ input → P cases summary → registers md data seq case →
     cases !! seq = None → P (<[seq := case]> cases) summary) →
  (∀ cases summary data result summary',
     data ∈ input → P cases summary → decodes data result →
     Summary.with_result summary result = ret summary' → P cases summary') →
  ∀ iterator cases summary cases' summary' flag rest,
    iterator ⊆ input → P cases summary →
    Report.consume md cases summary iterator = ret (cases', summary', flag, rest) →
    P cases' summary'.
Proof.
  intros Hcase Hresult iterator.
  induction iterator as [|data iterator IH];
    intros cases summary cases' summary' flag rest Hsub HP; simpl.
  - by intros [= <- <- _ _].
  - intros ([cases1 summary1|flag1] & Hturn & Hloop)%bind_inr.
    + assert (data ∈ input) as Hin by (apply Hsub; left).
      assert (iterator ⊆ input) as Hsub'.
      { intros x Hx. apply Hsub. by right. }
      apply dispatch_next in Hturn
        as [(seq & case & Hreg & Hnew & -> & ->)
           |(-> & result & Hdec & Hstored)].
      * eapply IH; [done| |done]. by eapply Hcase.
      * eapply IH; [done| |done]. by eapply Hresult.
    + by injection Hloop as <- <- _ _.
Qed.

Lemma from_input_ret input report :
  Report.from_input input = ret report →
  ∃ header iterator rest,
    input = header :: iterator
    ∧ RunMetadata.from_dict header = ret (Report.metadata report)
    ∧ Report.consume (Report.metadata report) ∅ Summary.new iterator
      = ret (Report._cases report, Report.summary report,
             Report.did_fail_fast report, rest).
Proof.
  destruct input as [|header iterator]; [done|]. simpl.
  intros (md & Hmd & ([[[cases summary] flag] rest] & Hloop & [= <-])%bind_inr)%bind_inr.
  by exists header, iterator, rest.
Qed.

Lemma from_input_summary input report :
  Report.from_input input = ret report →
  consistent (Report.summary report).
Proof.
  intros (header & iterator & rest & -> & Hmd & Hloop)%from_input_ret.
  refine (consume_invariant _ (λ _ summary, consistent summary) iterator
            _ _ iterator _ _ _ _ _ _ _ _ Hloop); [done| |done|].
  - intros cases summary data result summary' _ Hc _ Hstored.
    by eapply with_result_consistent.
  - apply consistent_new.
Qed.

(** The summary of every report that [from_input] returns is consistent:
    each result is filed under its own [seq] and [implementation], an
    implementation has a [Count] exactly when the summary holds a result of
    it, and that [Count] is what [be_counted] makes of [Count()] over these
    results, in some order. *)
Theorem from_input_consistent input report :
  Report.from_input input = ret report →
  consistent (Report.summary report).
Proof. apply from_input_summary. Qed.

(** Nothing in a report is made up: every case that [from_input] registered
    was decoded from a case record of the stream with that [seq], and every
    result of the summary was decoded from a record of the stream by one of
    the three decoders. *)
Theorem from_input_provenance input report :
  Report.from_input input = ret report →
  (∀ seq case, Report._cases report !! seq = Some case →
     ∃ data, data ∈ input ∧ registers (Report.metadata report) data seq case)
  ∧ (∀ seq i result,
       Summary.result_of (Report.summary report) seq i = Some result →
       ∃ data, data ∈ input ∧ decodes data result).
Proof.
  intros (header & iterator & rest & -> & Hmd & Hloop)%from_input_ret.
  refine (consume_invariant (Report.metadata report)
    (λ cases summary,
       (∀ seq case, cases !! seq = Some case →
          ∃ data, data ∈ header :: iterator
                  ∧ registers (Report.metadata report) data seq case)
       ∧ (∀ seq i result, Summary.result_of summary seq i = Some result →
            ∃ data, data ∈ header :: iterator ∧ decodes data result))
    iterator _ _ iterator _ _ _ _ _ _ _ _ Hloop).
  - intros cases summary data seq case Hin [Hcases Hresults] Hreg Hnew.
    split; [|done]. intros seq' case'.
    destruct (decide (seq = seq')) as [<-|Hne].
    + rewrite lookup_insert_eq. intros [= <-]. exists data. split; [by right|done].
    + rewrite lookup_insert_ne by done. apply Hcases.
  - intros cases summary data result summary' Hin [Hcases Hresults] Hdec
      [Hfresh ->]%with_result_ret.
    split; [done|]. intros seq' i' result'. rewrite result_of_insert.
    destruct (decide _) as [_|_]; [|apply Hresults].
    intros [= <-]. exists data. split; [by right|done].
  - done.
  - split.
    + intros seq case. by rewrite lookup_empty.
    + intros seq i result. unfold Summary.result_of; simpl. by rewrite lookup_empty.
Qed.

(** What the loop of [from_input] has registered and stored after any
    number of records is in the report as it was: a case is never replaced
    or dropped, nor is a result. *)
Theorem from_input_keeps header md consumed rest cases summary report :
  RunMetadata.from_dict header = ret md →
  Report.after md ∅ Summary.new consumed = Some (cases, summary) →
  Report.from_input (header :: consumed ++ rest) = ret report →
  cases ⊆ Report._cases report
  ∧ ∀ seq i result,
      Summary.result_of summary seq i = Some result →
      Summary.result_of (Report.summary report) seq i = Some result.
Proof.
  intros Hmd Hafter (header' & iterator & rest' & [= <- <-] & Hmd' & Hloop)%from_input_ret.
  rewrite Hmd in Hmd'. injection Hmd' as ->.
  rewrite (consume_after _ _ _ _ _ _ _ Hafter) in Hloop.
  refine (consume_invariant (Report.metadata report)
    (λ cases' summary',
       cases ⊆ cases'
       ∧ ∀ seq i result, Summary.result_of summary seq i = Some result →
           Summary.result_of summary' seq i = Some result)
    rest _ _ rest _ _ _ _ _ _ _ _ Hloop); [| |done|done].
  - intros cases' summary' data seq case _ [Hsub Hkept] _ Hnew. split; [|done].
    apply insert_subseteq_r; [|done]. by eapply lookup_weaken_None.
  - intros cases' summary' data result summary'' _ [Hsub Hkept] _
      [Hfresh ->]%with_result_ret.
    split; [done|]. intros seq i result' Hstored. rewrite result_of_insert.
    destruct (decide _) as [[<- <-]|_]; [|by apply Hkept].
    apply Hkept in Hstored. congruence.
Qed.

(** The [did_fail_fast] of a report is [False], or the value that a record
    of the stream holds under ["did_fail_fast"]; that record has no
    ["caught"]. *)
Theorem from_input_flag input report :
  Report.from_input input = ret report →
  Report.did_fail_fast report = JBool false
  ∨ ∃ data, data ∈ input
      ∧ data !! "did_fail_fast" = Some (Report.did_fail_fast report)
      ∧ data !! "caught" = None.
Proof.
  intros (header & iterator & rest & -> & Hmd & Hloop)%from_input_ret.
  revert Hloop. generalize (∅ : gmap Seq TestCase) Summary.new.
  generalize (Report._cases report) (Report.summary report).
  induction iterator as [|data iterator IH]; intros cases' summary' cases summary; simpl.
  - intros [= _ _ <- _]. by left.
  - intros ([cases1 summary1|flag1] & Hturn & Hloop)%bind_inr.
    + apply IH in Hloop as [?|(data' & Hin & ?)]; [by left|right].
      exists data'. split; [|done].
      apply elem_of_cons in Hin as [->|Hin]; [by left|]. right. by right.
    + injection Hloop as _ _ <- _.
      apply dispatch_break_inv in Hturn as (Hflag & _ & Hcaught & _).
      right. exists data. split; [|done]. right. by left.
Qed.

(** When the loop of [from_input] reaches a record that it decodes to a
    result whose implementation already has a result for the same [seq], it
    raises [_InvalidBowtieReport] for a duplicate result, whichever of the
    three kinds the two results are of, and whatever follows in the
    stream. *)
Theorem from_input_duplicate_result header md consumed cases summary data result
    rest :
  RunMetadata.from_dict header = ret md →
  Report.after md ∅ Summary.new consumed = Some (cases, summary) →
  decodes data result →
  is_Some (Summary.result_of summary (seq result) (implementation result)) →
  Report.from_input (header :: consumed ++ data :: rest)
  = raise (InvalidBowtieReport (DuplicateResult (seq result))).
Proof.
  intros Hheader Hconsumed Hdecodes Hstored.
  unfold Report.from_input. rewrite Hheader. simpl.
  rewrite (consume_after _ _ _ _ _ _ _ Hconsumed). simpl.
  rewrite (dispatch_decodes _ _ _ _ result Hdecodes).
  by rewrite (with_result_duplicate _ _ Hstored).
Qed.

End turns.

Section turns_examples.
#[local] Existing Instance Sample.env.

(** The run whose case 2 arrived before case 1. *)
Lemma from_input_consistent_example :
  ∃ report,
    Report.from_input Sample.out_of_order = ret report
    ∧ consistent (Report.summary report).
Proof.
  eexists. split; [vm_compute; reflexivity|].
  apply (@from_input_consistent Sample.env Sample.out_of_order).
  vm_compute; reflexivity.
Defined.

Lemma from_input_provenance_example :
  ∃ report,
    Report.from_input Sample.out_of_order = ret report
    ∧ (∀ seq case, Report._cases report !! seq = Some case →
         ∃ data, data ∈ Sample.out_of_order
                 ∧ registers (Report.metadata report) data seq case)
    ∧ (∀ seq i result,
         Summary.result_of (Report.summary report) seq i = Some result →
         ∃ data, data ∈ Sample.out_of_order ∧ decodes data result).
Proof.
  eexists. split; [vm_compute; reflexivity|].
  apply (@from_input_provenance Sample.env Sample.out_of_order).
  vm_compute; reflexivity.
Defined.

(** What the first three records after the header left is in the report of
    the whole run. *)
Lemma from_input_keeps_example :
  ∃ cases summary report,
    Report.after (Report.metadata Sample.joined_report) ∅ Summary.new
      [ Sample.case_record 2 "two" 1; Sample.case_record 1 "one" 2;
        Sample.result_record 2 "impl" [true] ] = Some (cases, summary)
    ∧ Report.from_input Sample.out_of_order = ret report
    ∧ cases ⊆ Report._cases report
    ∧ ∀ seq i result,
        Summary.result_of summary seq i = Some result →
        Summary.result_of (Report.summary report) seq i = Some result.
Proof.
  eexists _, _, _.
  split; [vm_compute; reflexivity|]. split; [vm_compute; reflexivity|].
  apply (@from_input_keeps Sample.env
           (Sample.header Sample.draft7 [Sample.descriptor "impl" [Sample.draft7]])
           (Report.metadata Sample.joined_report)
           [ Sample.case_record 2 "two" 1; Sample.case_record 1 "one" 2;
             Sample.result_record 2 "impl" [true] ]
           [ Sample.result_record 1 "impl" [true; false] ]);
    vm_compute; reflexivity.
Defined.

(** A run that was cut short after its first case. *)
Lemma from_input_flag_example :
  ∃ report,
    Report.from_input
      [ Sample.header Sample.draft7 []; Sample.case_record 1 "one" 1;
        Sample.fail_fast true; Sample.case_record 2 "two" 1 ] = ret report
    ∧ (Report.did_fail_fast report = JBool false
       ∨ ∃ data,
           data ∈ [ Sample.header Sample.draft7 []; Sample.case_record 1 "one" 1;
                    Sample.fail_fast true; Sample.case_record 2 "two" 1 ]
           ∧ data !! "did_fail_fast" = Some (Report.did_fail_fast report)
           ∧ data !! "caught" = None).
Proof.
  eexists. split; [vm_compute; reflexivity|].
  apply (@from_input_flag Sample.env). vm_compute; reflexivity.
Defined.

(** ["impl"] is skipped for case 1 after it has answered it. *)
Lemma from_input_duplicate_result_example :
  Report.from_input
    [ Sample.header Sample.draft7 [Sample.descriptor "impl" [Sample.draft7]];
      Sample.case_record 1 "one" 1;
      Sample.result_record 1 "impl" [true];
      {[ "implementation" := JStr "impl"; "seq" := JInt 1;
         "skipped" := JBool true ]};
      Sample.fail_fast true ]
  = raise (InvalidBowtieReport (DuplicateResult 1)).
Proof.
  eapply (@from_input_duplicate_result Sample.env
           (Sample.header Sample.draft7 [Sample.descriptor "impl" [Sample.draft7]])
           (Report.metadata Sample.joined_report)
           [ Sample.case_record 1 "one" 1; Sample.result_record 1 "impl" [true] ]
           _ _ _ (Skipped (mkCaseSkipped "impl" 1 JNull))).
  - vm_compute; reflexivity.
  - vm_compute; reflexivity.
  - split; [by right|]. right; left.
    split; [reflexivity|]. split; [reflexivity|].
    eexists. split; [vm_compute; reflexivity|reflexivity].
  - eexists. vm_compute; reflexivity.
Defined.

End turns_examples.

(** ** Counting the tests; the empty report *)

Section totals.
Context `{Externals}.
Implicit Types (self : Report.t datetime) (cases : gmap Seq TestCase).

Lemma total_tests_insert cases seq case md summary flag :
  cases !! seq = None →
  Report.total_tests (Report.mk (<[seq := case]> cases) md summary flag)
  = Z.of_nat (length (tests case))
    + Report.total_tests (Report.mk cases md summary flag).
Proof.
  intros Hnew. unfold Report.total_tests; simpl.
  rewrite map_fold_insert_L; [done| |done].
  intros. lia.
Qed.

(** [total_tests] is never negative, and it is 0 exactly when no registered
    case has a test: that is when [generate_badges] divides by zero. *)
Theorem total_tests_zero self :
  0 ≤ Report.total_tests self
  ∧ (Report.total_tests self = 0
     ↔ ∀ seq case, Report._cases self !! seq = Some case → tests case = []).
Proof.
  destruct self as [cases md summary flag]; simpl.
  induction cases as [|seq case cases Hnew _ IH] using map_first_key_ind.
  - split; [done|]. split; [|done]. intros _ seq case. by rewrite lookup_empty.
  - rewrite total_tests_insert by done. destruct IH as [Hle Hzero].
    split; [lia|]. split.
    + intros Hsum seq' case'.
      destruct (decide (seq = seq')) as [<-|Hne].
      * rewrite lookup_insert_eq. intros [= <-].
        apply length_zero_iff_nil. lia.
      * rewrite lookup_insert_ne by done. apply Hzero. lia.
    + intros Hall.
      rewrite (Hall seq case) by apply lookup_insert_eq. simpl.
      apply Hzero. intros seq' case' Hcase. apply (Hall seq').
      rewrite lookup_insert_ne; [done|]. intros ->. congruence.
Qed.

(** [is_empty] looks at the cases only: a report for which it holds has no
    test, and [cases_with_results] yields nothing for it and raises
    nothing, whatever results its summary holds. *)
Theorem is_empty_no_cases self :
  Report.is_empty self = true →
  Report.total_tests self = 0
  ∧ Report.cases_with_results self = ([], None).
Proof.
  unfold Report.is_empty. intros Hempty%bool_decide_eq_true.
  unfold Report.total_tests, Report.cases_with_results. rewrite Hempty.
  split; [apply map_fold_empty|].
  by rewrite map_to_list_empty.
Qed.

(** [Report.empty(dialect)] is empty, has no test and no implementation,
    yields no case, and its [generate_badges] writes nothing: it returns for
    a dialect of the shortname table and raises [KeyError] for any other. *)
Theorem empty_report dialect :
  Report.is_empty (Report.empty dialect) = true
  ∧ Report.total_tests (Report.empty dialect) = 0
  ∧ Report.implementations (Report.empty dialect) = ret []
  ∧ Report.cases_with_results (Report.empty dialect) = ([], None)
  ∧ Report.generate_badges (Report.empty dialect)
    = ([], if decide (is_Some (_DIALECT_URI_TO_SHORTNAME !! dialect))
           then None else Some KeyError).
Proof.
  split; [by apply bool_decide_eq_true|].
  split; [apply map_fold_empty|]. split; [done|].
  split.
  { unfold Report.cases_with_results, Report.empty; simpl.
    by rewrite map_to_list_empty. }
  unfold Report.generate_badges, shortname_getitem, Report.dialect; simpl.
  destruct (_DIALECT_URI_TO_SHORTNAME !! dialect) as [label|].
  - by rewrite decide_True.
  - rewrite decide_False; [done|]. by intros [? [=]].
Qed.

End totals.

Section totals_examples.
#[local] Existing Instance Sample.env.

(** A stream with a result and no case: the report is empty although its
    summary is not. *)
Lemma is_empty_no_cases_example :
  ∃ report,
    Report.from_input
      [ Sample.header Sample.draft7 []; Sample.result_record 1 "impl" [true] ]
    = ret report
    ∧ Summary.by_implementation (Report.summary report) !! "impl"
      = Some (Count.mk 0 0 0)
    ∧ Report.total_tests report = 0
    ∧ Report.cases_with_results report = ([], None).
Proof.
  eexists. split; [vm_compute; reflexivity|]. split; [vm_compute; reflexivity|].
  apply (@is_empty_no_cases Sample.env). vm_compute; reflexivity.
Defined.

End totals_examples.

(** ** More on generate_badges *)

Section badges_more.
Context `{Externals}.
Implicit Types (self : Report.t datetime) (impl : json).

Lemma write_badges_stops self label total before impl after written e :
  Forall2 (λ impl ops, Report.badges_of self label total impl = ret ops)
    before written →
  Report.badges_of self label total impl = raise e →
  Report.write_badges self label total (before ++ impl :: after)
  = (concat written, Some e).
Proof.
  intros Hbefore Himpl.
  induction Hbefore as [|impl' ops before written Hops _ IH]; simpl.
  - by rewrite Himpl.
  - rewrite Hops. simpl. by rewrite IH.
Qed.

(** [generate_badges] is not atomic: when the body of its loop raises for
    an implementation, the badges of the implementations before that one
    have been written and stay, and nothing is written for that
    implementation or for those after it. *)
Theorem generate_badges_stops self label before impl after written e :
  shortname_getitem (Report.dialect self) = ret label →
  RunMetadata.implementations (Report.metadata self) = ret (before ++ impl :: after) →
  Forall2
    (λ impl ops, Report.badges_of self label (Report.total_tests self) impl = ret ops)
    before written →
  Report.badges_of self label (Report.total_tests self) impl = raise e →
  Report.generate_badges self = (concat written, Some e).
Proof.
  intros Hlabel Himpls Hbefore Himpl. unfold Report.generate_badges.
  rewrite Hlabel, Himpls. simpl. by apply write_badges_stops.
Qed.

(** What the body of the loop writes when it returns: nothing, or three
    operations below the directory of an implementation that declares the
    dialect of the report. *)
Lemma badges_of_ret self label total impl ops :
  Report.badges_of self label total impl = ret ops →
  ops = []
  ∨ ∃ versions name lang,
      Report.dialect_versions impl = ret versions
      ∧ Report.dialect self ∈ versions
      ∧ getitem impl "name" = ret name
      ∧ getitem impl "language" = ret lang
      ∧ Forall (λ op, head (path op) = Some (str lang +:+ "-" +:+ str name)) ops
      ∧ length ops = 3%nat.
Proof.
  unfold Report.badges_of.
  intros (versions & Hversions & Hrest)%bind_inr.
  destruct (decide _) as [|Hin]; [left; by injection Hrest|].
  right. apply dec_stable in Hin.
  apply bind_inr in Hrest as (shortnames & _ & Hrest).
  apply bind_inr in Hrest as (name & Hname & Hrest).
  apply bind_inr in Hrest as (lang & Hlang & Hrest).
  apply bind_inr in Hrest as (image & _ & Hrest).
  apply bind_inr in Hrest as (counts & _ & Hrest).
  apply bind_inr in Hrest as (pct & _ & Hrest).
  apply bind_inr in Hrest as (rgb & _ & Hrest).
  apply bind_inr in Hrest as (shown & _ & Hrest).
  injection Hrest as <-.
  exists versions, name, lang. repeat split; try done.
  by repeat constructor.
Qed.

Lemma write_badges_only_supported self label total impls written e :
  Report.write_badges self label total impls = (written, e) →
  ∀ op, op ∈ written →
    ∃ impl versions name lang,
      impl ∈ impls
      ∧ Report.dialect_versions impl = ret versions
      ∧ Report.dialect self ∈ versions
      ∧ getitem impl "name" = ret name
      ∧ getitem impl "language" = ret lang
      ∧ head (path op) = Some (str lang +:+ "-" +:+ str name).
Proof.
  revert written e. induction impls as [|impl impls IH]; intros written e; simpl.
  - intros [= <- _] op Hop. by apply elem_of_nil in Hop.
  - destruct (Report.badges_of self label total impl) as [e'|ops] eqn:Hops.
    + intros [= <- _] op Hop. by apply elem_of_nil in Hop.
    + destruct (Report.write_badges self label total impls) as [more e'] eqn:Hmore.
      intros [= <- <-] op [Hop|Hop]%elem_of_app.
      * apply badges_of_ret in Hops
          as [->|(versions & name & lang & ? & ? & ? & ? & Hpaths & _)].
        { by apply elem_of_nil in Hop. }
        exists impl, versions, name, lang. do 5 (split; [done || by left|]).
        by eapply Forall_forall in Hpaths.
      * destruct (IH _ _ eq_refl op Hop)
          as (impl' & versions & name & lang & ? & ?).
        exists impl', versions, name, lang. split; [by right|done].
Qed.

(** Whatever [generate_badges] writes, and whether it returns or raises,
    every path it touches lies below the directory [{language}-{name}] of
    an implementation of the run metadata that declares the dialect of the
    report among its dialects: nothing is written for an implementation
    that does not. *)
Theorem generate_badges_only_supported self written e :
  Report.generate_badges self = (written, e) →
  ∀ op, op ∈ written →
    ∃ impls impl versions name lang,
      RunMetadata.implementations (Report.metadata self) = ret impls
      ∧ impl ∈ impls
      ∧ Report.dialect_versions impl = ret versions
      ∧ Report.dialect self ∈ versions
      ∧ getitem impl "name" = ret name
      ∧ getitem impl "language" = ret lang
      ∧ head (path op) = Some (str lang +:+ "-" +:+ str name).
Proof.
  unfold Report.generate_badges.
  destruct (shortname_getitem (Report.dialect self)) as [e'|label].
  { intros [= <- _] op Hop. by apply elem_of_nil in Hop. }
  destruct (RunMetadata.implementations (Report.metadata self)) as [e'|impls].
  { intros [= <- _] op Hop. by apply elem_of_nil in Hop. }
  intros Hwritten op Hop.
  destruct (write_badges_only_supported _ _ _ _ _ _ Hwritten op Hop)
    as (impl & versions & name & lang & Hsupported).
  by exists impls, impl, versions, name, lang.
Qed.

(** In a report that [from_input] returned, an implementation that
    declares the dialect of the report but has no result in the summary,
    for any case, makes the body of the loop of [generate_badges] raise
    [KeyError] at [self.summary.by_implementation[impl["image"]]]. *)
Theorem badges_of_silent input report label total impl versions shortnames name
    lang i :
  Report.from_input input = ret report →
  Report.dialect_versions impl = ret versions →
  Report.dialect report ∈ versions →
  traverse shortname_getitem (reverse versions) = ret shortnames →
  getitem impl "name" = ret name →
  getitem impl "language" = ret lang →
  getitem impl "image" = ret (JStr i) →
  (∀ seq, Summary.result_of (Report.summary report) seq i = None) →
  Report.badges_of report label total impl = raise KeyError.
Proof.
  intros Hreport Hversions Hin Hshort Hname Hlang Himage Hsilent.
  apply from_input_summary in Hreport.
  apply (consistent_no_count _ i) in Hreport. apply Hreport in Hsilent.
  unfold Report.badges_of. rewrite Hversions. simpl.
  rewrite decide_False by (by intros ?).
  rewrite Hshort. simpl. rewrite Hname. simpl. rewrite Hlang. simpl.
  rewrite Himage. simpl. unfold Report.counts_getitem. by rewrite Hsilent.
Qed.

End badges_more.

Section badges_more_examples.
#[local] Existing Instance Sample.env.

(** ["impl"] answered the one test, ["other"] gave no result: the badges of
    ["impl"] are written, then the loop raises. *)
Lemma generate_badges_stops_example :
  ∃ report,
    Report.from_input Sample.two_implementations = ret report
    ∧ Report.generate_badges report
      = (Sample.badges "100% Passing" "006400", Some KeyError).
Proof.
  eexists. split; [vm_compute; reflexivity|].
  apply (@generate_badges_stops Sample.env _ "Draft 7"
           [ (Sample.descriptor "impl" [Sample.draft7]).2 ]
           (Sample.descriptor "other" [Sample.draft7]).2 []
           [ Sample.badges "100% Passing" "006400" ] KeyError).
  - vm_compute; reflexivity.
  - vm_compute; reflexivity.
  - constructor; [vm_compute; reflexivity|constructor].
  - vm_compute; reflexivity.
Defined.

Lemma generate_badges_only_supported_example :
  ∃ report,
    Report.from_input Sample.two_implementations = ret report
    ∧ ∀ op, op ∈ Sample.badges "100% Passing" "006400" →
        ∃ impls impl versions name lang,
          RunMetadata.implementations (Report.metadata report) = ret impls
          ∧ impl ∈ impls
          ∧ Report.dialect_versions impl = ret versions
          ∧ Report.dialect report ∈ versions
          ∧ getitem impl "name" = ret name
          ∧ getitem impl "language" = ret lang
          ∧ head (path op) = Some (str lang +:+ "-" +:+ str name).
Proof.
  eexists. split; [vm_compute; reflexivity|].
  apply (@generate_badges_only_supported Sample.env _ _ (Some KeyError)).
  vm_compute; reflexivity.
Defined.

Lemma badges_of_silent_example :
  ∃ report,
    Report.from_input Sample.two_implementations = ret report
    ∧ Report.badges_of report "Draft 7" 1
        (Sample.descriptor "other" [Sample.draft7]).2
      = raise KeyError.
Proof.
  eexists. split; [vm_compute; reflexivity|].
  apply (@badges_of_silent Sample.env Sample.two_implementations _ "Draft 7" 1 _
           [mkURL Sample.draft7] ["Draft 7"] (JStr "other") (JStr "python") "other").
  - vm_compute; reflexivity.
  - vm_compute; reflexivity.
  - apply list_elem_of_here.
  - vm_compute; reflexivity.
  - vm_compute; reflexivity.
  - vm_compute; reflexivity.
  - vm_compute; reflexivity.
  - apply stored_nil. vm_compute; reflexivity.
Defined.

End badges_more_examples.

(** ** The header, written and read *)

Section header.
Context `{Externals}.
Implicit Types (md : RunMetadata.t datetime) (header : record).

(** [from_dict] accepts a header exactly when its ["dialect"] is a string
    that [URL.parse] accepts, it has a ["started"] that is [None] or that
    [fromisoformat] accepts, it has ["implementations"], and it has no key
    besides these three, ["bowtie_version"] and ["metadata"]; a missing
    version or metadata gets its default, a [None] start the current time. *)
Theorem from_dict_accepts header md :
  RunMetadata.from_dict header = ret md
  ↔ ∃ s started,
      header !! "dialect" = Some (JStr s)
      ∧ URL_parse s = ret (RunMetadata.dialect md)
      ∧ header !! "started" = Some started
      ∧ match started with
        | JNull => RunMetadata.started md = now
        | _ => fromisoformat started = ret (RunMetadata.started md)
        end
      ∧ header !! "implementations" = Some (RunMetadata._implementations md)
      ∧ RunMetadata.bowtie_version md
        = default (JStr installed_version) (header !! "bowtie_version")
      ∧ RunMetadata.metadata md = default (JObject []) (header !! "metadata")
      ∧ dom header ⊆ header_keys.
Proof.
  unfold RunMetadata.from_dict.
  assert (Hdom :
    dom (delete "started" (delete "dialect" header))
      ⊆ ({["implementations"; "bowtie_version"; "metadata"]} : gset string)
    ↔ dom header ⊆ header_keys).
  { rewrite !dom_delete_L. unfold header_keys. split.
    - intros Hsub k Hk. rewrite !elem_of_union, !elem_of_singleton.
      destruct (decide (k = "dialect")) as [->|]; [tauto|].
      destruct (decide (k = "started")) as [->|]; [tauto|].
      specialize (Hsub k). rewrite !elem_of_difference, !elem_of_union,
        !elem_of_singleton in Hsub. tauto.
    - intros Hsub k. specialize (Hsub k).
      rewrite !elem_of_difference, !elem_of_union, !elem_of_singleton in *. tauto. }
  rewrite !lookup_delete_ne by done.
  split.
  - destruct (header !! "dialect") as [dialect|]; [|done].
    destruct (header !! "started") as [started|]; [|done].
    intros (started' & Hstarted & (dialect' & Hdialect & Hrest)%bind_inr)%bind_inr.
    destruct (decide _) as [Hsub|]; [|done].
    destruct (header !! "implementations") as [implementations|]; [|done].
    injection Hrest as <-. simpl.
    destruct dialect as [| | | |s| |]; try done.
    exists s, started. apply Hdom in Hsub.
    repeat split; try done.
    destruct started; simpl in Hstarted;
      try (apply bind_inr in Hstarted as (parsed & -> & [= <-]); done).
    by injection Hstarted as <-.
  - intros (s & started & -> & Hs & -> & Hstarted & -> & Hversion & Hmeta & Hsub).
    apply Hdom in Hsub. rewrite Hs.
    destruct md as [dialect implementations version metadata started']; simpl in *.
    subst version metadata.
    assert ((match started with
             | JNull => ret None
             | _ => let* parsed := fromisoformat started in ret (Some parsed)
             end) = ret (if started is JNull then None else Some started')) as ->.
    { destruct started; by rewrite ?Hstarted. }
    simpl. rewrite decide_True by done.
    destruct started; simpl; by subst.
Qed.

End header.

Section written.
Context `{Serializers}.
Implicit Types (md : RunMetadata.t datetime) (cases : list (Seq * TestCase)).

Lemma from_dict_serializable md :
  URL_parse (href (RunMetadata.dialect md)) = ret (RunMetadata.dialect md) →
  fromisoformat (JStr (isoformat (RunMetadata.started md)))
  = ret (RunMetadata.started md) →
  RunMetadata.from_dict (RunMetadata.serializable md) = ret md.
Proof.
  intros Hurl Hiso. unfold RunMetadata.from_dict, RunMetadata.serializable.
  change (({[ "dialect" := JStr (href (RunMetadata.dialect md));
     "implementations" := RunMetadata._implementations md;
     "bowtie_version" := RunMetadata.bowtie_version md;
     "metadata" := RunMetadata.metadata md;
     "started" := JStr (isoformat (RunMetadata.started md)) ]} : record) !! "dialect")
    with (Some (JStr (href (RunMetadata.dialect md)))).
  cbv beta iota zeta.
  rewrite lookup_delete_ne by done.
  change (({[ "dialect" := JStr (href (RunMetadata.dialect md));
     "implementations" := RunMetadata._implementations md;
     "bowtie_version" := RunMetadata.bowtie_version md;
     "metadata" := RunMetadata.metadata md;
     "started" := JStr (isoformat (RunMetadata.started md)) ]} : record) !! "started")
    with (Some (JStr (isoformat (RunMetadata.started md)))).
  cbv beta iota zeta. rewrite Hiso, Hurl. cbn [bind ret].
  rewrite decide_True by done.
  rewrite !lookup_delete_ne by done.
  by destruct md.
Qed.

(** [from_dict] reads back what [serializable] renders, for a metadata
    whose dialect [URL.parse] reads back from its string and whose start
    [fromisoformat] reads back from its ISO format. *)
Theorem serializable_round_trip md :
  URL_parse (href (RunMetadata.dialect md)) = ret (RunMetadata.dialect md) →
  fromisoformat (JStr (isoformat (RunMetadata.started md)))
  = ret (RunMetadata.started md) →
  RunMetadata.from_dict (RunMetadata.serializable md) = ret md.
Proof. apply from_dict_serializable. Qed.

Lemma finished_written count flag self :
  Reporter.written (Reporter.finished count flag self)
  = Reporter.written self ++ [ {[ "did_fail_fast" := JBool flag ]} ].
Proof. unfold Reporter.finished. by destruct (decide _). Qed.

Lemma case_started_written cases : ∀ self,
  Reporter.written
    (foldl (λ self sc, Reporter.case_started sc.1 sc.2 self) self cases)
  = Reporter.written self
    ++ ((λ sc, {[ "case" := TestCase_serializable sc.2; "seq" := JInt sc.1 ]} : record)
        <$> cases).
Proof.
  induction cases as [|[seq case] cases IH]; intros self; simpl.
  - by rewrite app_nil_r.
  - rewrite IH. simpl. by rewrite <-app_assoc.
Qed.

Lemma after_case_started md summary cases : ∀ registered,
  NoDup cases.*1 →
  (∀ seq, seq ∈ cases.*1 → registered !! seq = None) →
  Forall
    (λ sc, ∃ members,
       TestCase_serializable sc.2 = JObject members
       ∧ TestCase_from_dict (RunMetadata.dialect md) (without "dialect" members)
         = ret sc.2)
    cases →
  Report.after md registered summary
    ((λ sc, {[ "case" := TestCase_serializable sc.2; "seq" := JInt sc.1 ]} : record)
     <$> cases)
  = Some (list_to_map cases ∪ registered, summary).
Proof.
  induction cases as [|[seq case] cases IH]; intros registered Hnodup Hnew Hcodec.
  - simpl. by rewrite (left_id_L ∅ (∪)).
  - rewrite fmap_cons in Hnodup. apply NoDup_cons in Hnodup as [Hseq Hnodup].
    apply Forall_cons in Hcodec as [(members & Hmembers & Hcase) Hcodec].
    cbn [fst snd] in Hmembers, Hcase.
    rewrite fmap_cons. cbn [Report.after fst snd list_to_map foldr].
    rewrite (dispatch_case _ _ _ _ seq members case);
      [|done|by rewrite <-Hmembers|apply Hnew; by left|done].
    cbv beta iota delta [ret]. rewrite IH; [|done| |done].
    + f_equal. f_equal. rewrite <-insert_union_l.
      symmetry. apply insert_union_r. by apply not_elem_of_list_to_map_1.
    + intros seq' Hin. rewrite lookup_insert_ne; [|by intros ->].
      apply Hnew. by right.
Qed.

(** What a [Reporter] hands to its sink in a run, [ready], then
    [case_started] for cases of pairwise distinct [seq], then [finished],
    is a stream that [from_input] reads back: the report has the metadata,
    these cases under their [seq], no result, and the flag given to
    [finished], whatever the count was. The cases are those that
    [TestCase.from_dict] reads back from their [serializable] dict. *)
Theorem reporter_round_trip md cases count flag :
  URL_parse (href (RunMetadata.dialect md)) = ret (RunMetadata.dialect md) →
  fromisoformat (JStr (isoformat (RunMetadata.started md)))
  = ret (RunMetadata.started md) →
  NoDup cases.*1 →
  Forall
    (λ sc, ∃ members,
       TestCase_serializable sc.2 = JObject members
       ∧ TestCase_from_dict (RunMetadata.dialect md) (without "dialect" members)
         = ret sc.2)
    cases →
  Report.from_input
    (Reporter.written
       (Reporter.finished count flag
          (foldl (λ self sc, Reporter.case_started sc.1 sc.2 self)
             (Reporter.ready md Reporter.new) cases)))
  = ret (Report.mk (list_to_map cases) md Summary.new (JBool flag)).
Proof.
  intros Hurl Hiso Hnodup Hcodec.
  rewrite finished_written, case_started_written. simpl.
  rewrite (from_dict_serializable md Hurl Hiso). simpl.
  rewrite (consume_after md _ ∅ Summary.new (list_to_map cases) Summary.new).
  - simpl. by rewrite (dispatch_break _ _ _ _ (JBool flag)); [|done|left|done|done].
  - rewrite (after_case_started md Summary.new cases ∅); [|done| |done].
    + by rewrite (right_id_L ∅ (∪)).
    + intros seq _. apply lookup_empty.
Qed.

End written.

(** ** from_serialized *)

Section serialized.
Context `{Serializers}.
Implicit Types (md : RunMetadata.t datetime) (cases : gmap Seq TestCase)
  (summary : Summary.t) (data header : record).

Lemma consume_lazily_after md consumed : ∀ cases summary cases' summary' iterator,
  Report.after md cases summary consumed = Some (cases', summary') →
  Report.consume_lazily md cases summary ((ret <$> consumed) ++ iterator)
  = Report.consume_lazily md cases' summary' iterator.
Proof.
  induction consumed as [|data consumed IH];
    intros cases summary cases' summary' iterator; simpl.
  - by intros [= -> ->].
  - destruct (Report.dispatch md cases summary data) as [e|[cases1 summary1|flag]];
      simpl; [done| |done].
    apply IH.
Qed.

Lemma consume_lazily_pure md iterator : ∀ cases summary,
  Report.consume_lazily md cases summary (ret <$> iterator)
  = let* (cases, summary, did_fail_fast, _) :=
      Report.consume md cases summary iterator in
    ret (cases, summary, did_fail_fast).
Proof.
  induction iterator as [|data iterator IH]; intros cases summary; simpl; [done|].
  destruct (Report.dispatch md cases summary data) as [e|[cases1 summary1|flag]];
    simpl; [done| |done].
  apply IH.
Qed.

Lemma from_iterator_pure input :
  Report.from_iterator (ret <$> input) = Report.from_input input.
Proof.
  destruct input as [|header iterator]; [done|]. simpl.
  destruct (RunMetadata.from_dict header) as [e|md]; simpl; [done|].
  rewrite consume_lazily_pure.
  by destruct (Report.consume md ∅ Summary.new iterator) as [e|[[[? ?] ?] ?]].
Qed.

Lemma loads_decoded lines input :
  Forall2 (λ line data, loads line = ret data) lines input →
  loads <$> lines = ret <$> input.
Proof.
  induction 1 as [|line data lines input Hline _ IH]; [done|].
  rewrite !fmap_cons. by rewrite Hline, IH.
Qed.

(** When every line decodes, [from_serialized] is [from_input] of the
    decoded records. *)
Theorem from_serialized_decoded lines input :
  Forall2 (λ line data, loads line = ret data) lines input →
  Report.from_serialized lines = Report.from_input input.
Proof.
  intros Hlines. unfold Report.from_serialized.
  rewrite (loads_decoded _ _ Hlines). apply from_iterator_pure.
Qed.

(** The lines are decoded as the loop asks for them: once a record has
    left the loop, the lines after it are not decoded, and whatever they
    hold, JSON or not, the report is that of the lines before. *)
Theorem from_serialized_stops lines rest header md consumed cases summary data
    flag :
  Forall2 (λ line data, loads line = ret data) lines (header :: consumed ++ [data]) →
  RunMetadata.from_dict header = ret md →
  Report.after md ∅ Summary.new consumed = Some (cases, summary) →
  Report.dispatch md cases summary data = ret (Report.Break flag) →
  Report.from_serialized (lines ++ rest)
  = ret (Report.mk cases md summary flag).
Proof.
  intros Hlines Hheader Hafter Hbreak. unfold Report.from_serialized.
  rewrite fmap_app, (loads_decoded _ _ Hlines). simpl.
  rewrite Hheader. simpl.
  rewrite fmap_app, <-app_assoc.
  rewrite (consume_lazily_after _ _ _ _ _ _ _ Hafter). simpl.
  by rewrite Hbreak.
Qed.

(** A line that does not decode is fatal when the loop reaches it: the
    exception of [json.loads] leaves [from_serialized], and the lines after
    it are not looked at. *)
Theorem from_serialized_undecodable lines line rest header md consumed cases
    summary e :
  Forall2 (λ line data, loads line = ret data) lines (header :: consumed) →
  RunMetadata.from_dict header = ret md →
  Report.after md ∅ Summary.new consumed = Some (cases, summary) →
  loads line = raise e →
  Report.from_serialized (lines ++ line :: rest) = raise e.
Proof.
  intros Hlines Hheader Hafter Hline. unfold Report.from_serialized.
  rewrite fmap_app, (loads_decoded _ _ Hlines). simpl.
  rewrite Hheader. simpl.
  rewrite (consume_lazily_after _ _ _ _ _ _ _ Hafter). simpl.
  by rewrite Hline.
Qed.

End serialized.

(** ** from_implementations *)

Section descriptors.
Context `{Serializers}.

Lemma setitem_keys k v o :
  (setitem k v o).*1 = if decide (k ∈ o.*1) then o.*1 else o.*1 ++ [k].
Proof.
  induction o as [|[k' v'] o IH]; cbn [setitem]; [done|].
  destruct (decide (k = k')) as [<-|Hne]; rewrite !fmap_cons; cbn [fst].
  - rewrite decide_True; [done|by left].
  - rewrite IH. destruct (decide (k ∈ o.*1)) as [Hin|Hnotin].
    + rewrite decide_True; [done|by right].
    + rewrite decide_False; [done|]. by intros [?|?]%elem_of_cons.
Qed.

Lemma elem_of_setitem k v o kv :
  kv ∈ setitem k v o → kv = (k, v) ∨ kv ∈ o.
Proof.
  induction o as [|[k' v'] o IH]; simpl.
  - intros ->%list_elem_of_singleton. by left.
  - destruct (decide (k = k')) as [<-|Hne].
    + intros [->|?]%elem_of_cons; [by left|]. right. by right.
    + intros [->|[->|?]%IH]%elem_of_cons; [right; by left|by left|].
      right. by right.
Qed.

Lemma assoc_setitem k v o : assoc k (setitem k v o) = Some v.
Proof.
  induction o as [|[k' v'] o IH]; simpl.
  - by rewrite decide_True.
  - destruct (decide (k = k')) as [<-|Hne]; simpl.
    + by rewrite decide_True.
    + by rewrite decide_False.
Qed.

Lemma described_image implementation :
  getitem (RunMetadata.described implementation) "image"
  = ret (JStr (Implementation.name implementation)).
Proof. unfold RunMetadata.described; simpl. by rewrite assoc_setitem. Qed.

Lemma images_of_descriptors o :
  Forall (λ kv, getitem kv.2 "image" = ret (JStr kv.1)) o →
  traverse (λ each, getitem each "image") o.*2 = ret (JStr <$> o.*1).
Proof.
  induction 1 as [|[k v] o Hkv _ IH]; [done|].
  rewrite !fmap_cons. cbn [traverse fst snd] in *.
  by rewrite Hkv, IH.
Qed.

Lemma comprehension_spec (implementations : list Implementation.t) :
  let o :=
    foldl
      (λ o implementation,
         setitem (Implementation.name implementation)
           (RunMetadata.described implementation) o)
      [] implementations in
  NoDup o.*1
  ∧ (∀ name, name ∈ o.*1 ↔ name ∈ Implementation.name <$> implementations)
  ∧ Forall (λ kv, getitem kv.2 "image" = ret (JStr kv.1)) o.
Proof.
  induction implementations as [|implementation implementations IH] using rev_ind;
    cbv zeta in *.
  - split; [constructor|]. by split.
  - rewrite foldl_app. cbn [foldl]. destruct IH as (Hnodup & Hkeys & Himages).
    rewrite setitem_keys. split; [|split].
    + destruct (decide _) as [|Hnew]; [done|].
      apply NoDup_app. split; [done|]. split; [|apply NoDup_singleton].
      by intros name Hin ->%list_elem_of_singleton.
    + intros name. rewrite fmap_app, elem_of_app, fmap_cons, fmap_nil.
      rewrite list_elem_of_singleton, <-Hkeys.
      destruct (decide _) as [Hin|Hnew].
      * split; [by left|]. by intros [?| ->].
      * by rewrite elem_of_app, list_elem_of_singleton.
    + apply Forall_forall. intros kv [->|Hin]%elem_of_setitem.
      * apply described_image.
      * by eapply Forall_forall in Himages.
Qed.

(** The metadata that [from_implementations] builds gives every
    descriptor its ["image"], the name of the implementation, whatever the
    metadata of the implementation held under that key: the
    [implementations] of a report with this metadata are the names of the
    implementations, each once, and the property never raises. *)
Theorem from_implementations_images implementations dialect bowtie_version
    metadata started cases summary flag :
  ∃ images,
    Report.implementations
      (Report.mk cases
         (RunMetadata.from_implementations implementations dialect
            bowtie_version metadata started)
         summary flag)
    = ret (JStr <$> images)
    ∧ NoDup images
    ∧ ∀ name, name ∈ images ↔ name ∈ Implementation.name <$> implementations.
Proof.
  destruct (comprehension_spec implementations) as (Hnodup & Hkeys & Himages).
  eexists. split; [|split; [exact Hnodup|exact Hkeys]].
  unfold Report.implementations, RunMetadata.from_implementations; simpl.
  by apply images_of_descriptors.
Qed.

End descriptors.

Section written_examples.
#[local] Existing Instance Sample.env.
#[local] Existing Instance Sample.serializers.

Lemma serializable_round_trip_example :
  RunMetadata.from_dict (RunMetadata.serializable (Sample.metadata_of Sample.draft7))
  = ret (Sample.metadata_of Sample.draft7).
Proof.
  apply (@serializable_round_trip Sample.env Sample.serializers); reflexivity.
Defined.

(** A run of one case that was cut short. *)
Lemma reporter_round_trip_example :
  Report.from_input
    (Reporter.written
       (Reporter.finished 1 true
          (Reporter.case_started 1 (mkTestCase (JObject []) "one" [Sample.a_test])
             (Reporter.ready (Sample.metadata_of Sample.draft7) Reporter.new))))
  = ret (Report.mk {[ 1 := mkTestCase (JObject []) "one" [Sample.a_test] ]}
           (Sample.metadata_of Sample.draft7) Summary.new (JBool true)).
Proof.
  apply (@reporter_round_trip Sample.env Sample.serializers
           (Sample.metadata_of Sample.draft7)
           [ (1, mkTestCase (JObject []) "one" [Sample.a_test]) ] 1 true).
  - reflexivity.
  - reflexivity.
  - apply NoDup_singleton.
  - constructor; [|constructor]. eexists. split; reflexivity.
Defined.

Lemma from_serialized_decoded_example :
  Report.from_serialized ["header"; "case 1"; "result 1"]
  = Report.from_input
      [ Sample.header Sample.draft7 [Sample.descriptor "impl" [Sample.draft7]];
        Sample.case_record 1 "one" 1; Sample.result_record 1 "impl" [true] ].
Proof.
  apply (@from_serialized_decoded Sample.env Sample.serializers).
  repeat constructor.
Defined.

(** The line after the fail-fast record is not JSON, and is never decoded. *)
Lemma from_serialized_stops_example :
  ∃ cases summary,
    Report.from_serialized ["header"; "case 1"; "result 1"; "fail fast"; "{"]
    = ret (Report.mk cases (Report.metadata Sample.joined_report) summary
             (JBool true)).
Proof.
  eexists _, _.
  apply (@from_serialized_stops Sample.env Sample.serializers
           ["header"; "case 1"; "result 1"; "fail fast"] ["{"]
           (Sample.header Sample.draft7 [Sample.descriptor "impl" [Sample.draft7]])
           (Report.metadata Sample.joined_report)
           [ Sample.case_record 1 "one" 1; Sample.result_record 1 "impl" [true] ]
           _ _ (Sample.fail_fast true) (JBool true)).
  - repeat constructor.
  - vm_compute; reflexivity.
  - vm_compute; reflexivity.
  - vm_compute; reflexivity.
Defined.

(** The third line is not JSON, and the fail-fast record comes too late. *)
Lemma from_serialized_undecodable_example :
  Report.from_serialized ["header"; "case 1"; "{"; "fail fast"] = raise ValueError.
Proof.
  eapply (@from_serialized_undecodable Sample.env Sample.serializers
            ["header"; "case 1"] "{" ["fail fast"]
            (Sample.header Sample.draft7 [Sample.descriptor "impl" [Sample.draft7]])
            (Report.metadata Sample.joined_report)
            [ Sample.case_record 1 "one" 1 ]).
  - repeat constructor.
  - vm_compute; reflexivity.
  - vm_compute; reflexivity.
  - reflexivity.
Defined.

End written_examples.
